(** * ISSP firmware updater (drivers/misc/issp/issp.c)

    A shallow embedding of the firmware-image validator, the sequential
    byte reader, the update decision, the attach sequence and the three
    reset paths of the ISSP driver, with the properties of its
    specification stated and settled against the code. *)

From Stdlib Require Import String ZArith List Bool Lia.
From Stdlib.Strings Require Import Byte.
Import ListNotations.
Local Open Scope Z_scope.

(** ** C integer types *)

Module CInt.

(** A value stored in a C [int]: two's complement, 32 bits. *)
Definition int (z : Z) : Z := (z + 2 ^ 31) mod 2 ^ 32 - 2 ^ 31.

(** A value stored in a [uint8_t] / [uint16_t]. *)
Definition u8 (z : Z) : Z := z mod 2 ^ 8.
Definition u16 (z : Z) : Z := z mod 2 ^ 16.

Definition add (a b : Z) : Z := int (a + b).
Definition sub (a b : Z) : Z := int (a - b).
Definition mul (a b : Z) : Z := int (a * b).

End CInt.

(** errno values used by the driver. *)
Definition EACCES : Z := 13.
Definition EINVAL : Z := 22.
Definition ENOMEM : Z := 12.

(** ** Data model *)

Definition byte_val (b : byte) : Z := Z.of_N (Byte.to_N b).

(** [struct ihex_binrec]: [addr] and [len] hold the values that
    [be32_to_cpu] and [be16_to_cpu] return for the stored fields. *)
Record ihex_binrec : Type := mk_binrec {
  addr : Z;
  len : Z;
  data : list byte
}.

(** The record holds exactly the bytes its length field announces. *)
Definition binrec_wf (r : ihex_binrec) : Prop :=
  len r = Z.of_nat (length (data r)).

(** [rec->data[i]].  Inside the record this is the i-th data byte.  An index
    outside the record reads image bytes that the record model does not
    carry; [x00] stands for them, and every statement about a byte value
    below keeps the index inside the record. *)
Definition rec_data (r : ihex_binrec) (i : Z) : byte :=
  if i <? 0 then x00 else nth (Z.to_nat i) (data r) x00.

(** A [const struct ihex_binrec *] is the part of the record stream that
    starts at the record pointed to.  [[]] is a pointer under which the
    stream has no record: [NULL], which is what [ihex_next_binrec] returns
    after the last record, or, for an image without any record, the
    end-of-stream marker that [host->fw->data] then designates. *)
Definition binrec_ptr : Type := list ihex_binrec.

(** Modelled from the spec: [ihex_next_binrec] (linux/ihex.h) is not part of
    the driver's source.  The records form an ordered sequence terminated by
    an end-of-stream marker: the next record is the following element of the
    stream, and [NULL] after the last one. *)
Definition ihex_next_binrec (rec : binrec_ptr) : binrec_ptr := tl rec.

(** Modelled from the spec: [struct issp_platform_data] is declared in a
    header outside the driver's source.  The numeric configuration values
    (block size, block count, version-byte address, gpio numbers) are C
    [int]s, the force-update policy is a flag, and the expected silicon
    identity is an array of four bytes. *)
Record issp_platform_data : Type := mk_pdata {
  reset_gpio : Z;
  data_gpio : Z;
  clk_gpio : Z;
  fw_name : string;
  pd_si_id : nat -> Z;
  block_size : Z;
  blocks : Z;
  version_addr : Z;
  force_update : bool
}.

(** [struct issp_host], the fields the driver file uses.  [fw] is
    [host->fw->data] seen as a record stream: its head is the record the
    pointer designates, which the driver reads without a test. *)
Record issp_host : Type := mk_host {
  pdata : issp_platform_data;
  fw : binrec_ptr;
  security_rec : binrec_ptr;
  checksum_fw : Z;
  version_fw : Z;
  cur_rec : binrec_ptr;
  cur_idx : Z;
  si_id : nat -> Z
}.

Definition set_security_rec (h : issp_host) (p : binrec_ptr) : issp_host :=
  mk_host (pdata h) (fw h) p (checksum_fw h) (version_fw h)
          (cur_rec h) (cur_idx h) (si_id h).

Definition set_checksum_fw (h : issp_host) (v : Z) : issp_host :=
  mk_host (pdata h) (fw h) (security_rec h) v (version_fw h)
          (cur_rec h) (cur_idx h) (si_id h).

Definition set_version_fw (h : issp_host) (v : Z) : issp_host :=
  mk_host (pdata h) (fw h) (security_rec h) (checksum_fw h) v
          (cur_rec h) (cur_idx h) (si_id h).

Definition set_cursor (h : issp_host) (p : binrec_ptr) (i : Z) : issp_host :=
  mk_host (pdata h) (fw h) (security_rec h) (checksum_fw h) (version_fw h)
          p i (si_id h).

Definition set_si_id (h : issp_host) (id : nat -> Z) : issp_host :=
  mk_host (pdata h) (fw h) (security_rec h) (checksum_fw h) (version_fw h)
          (cur_rec h) (cur_idx h) id.

(** ** Firmware validation: [issp_check_fw] *)

Section CheckFw.

(** The two reserved record addresses are macros of issp_priv.h, which is
    not part of the driver's source. *)
Variable ISSP_FW_SECURITY_ADDR : Z.
Variable ISSP_FW_CHECKSUM_ADDR : Z.

(** One iteration of the scanning loop, up to the test [checks == 4]:
    [rec] points to the record, [r] is the record itself. *)
Definition check_fw_rec (size : Z) (rec : binrec_ptr) (r : ihex_binrec)
           (host : issp_host) (checks : Z) : issp_host * Z :=
  let addr := CInt.int (addr r) in
  let len := len r in
  let checks := if CInt.add addr len =? size then checks + 1 else checks in
  let '(host, checks) :=
    if addr =? ISSP_FW_SECURITY_ADDR
    then (set_security_rec host rec, checks + 1)
    else (host, checks) in
  let '(host, checks) :=
    if addr =? ISSP_FW_CHECKSUM_ADDR
    then (set_checksum_fw host
            (CInt.u16 (Z.lor (Z.shiftl (byte_val (rec_data r 0)) 8)
                             (byte_val (rec_data r 1)))),
          checks + 1)
    else (host, checks) in
  if (version_addr (pdata host) >? addr) &&
     (version_addr (pdata host) <? CInt.add addr len)
  then (set_version_fw host
          (byte_val
             (rec_data r (CInt.sub (version_addr (pdata host)) addr))),
        checks + 1)
  else (host, checks).

(** [while (rec) { ...; if (checks == 4) break; rec = ihex_next_binrec(rec); }]
    The counter stays far below the range of [int]: it grows by at most
    four per record. *)
Fixpoint check_fw_loop (size : Z) (rec : binrec_ptr) (host : issp_host)
         (checks : Z) {struct rec} : issp_host * Z :=
  match rec with
  | [] => (host, checks)
  | r :: next =>
      let '(host, checks) := check_fw_rec size rec r host checks in
      if checks =? 4 then (host, checks)
      else check_fw_loop size next host checks
  end.

Definition issp_check_fw (host : issp_host) : Z * issp_host :=
  let size := CInt.mul (block_size (pdata host)) (blocks (pdata host)) in
  let '(host, checks) := check_fw_loop size (fw host) host 0 in
  if checks <? 4 then (- EINVAL, host) else (0, host).

(** The four conditions of the loop body, one record at a time. *)
Definition hit_size (size : Z) (r : ihex_binrec) : bool :=
  CInt.add (CInt.int (addr r)) (len r) =? size.

Definition hit_security (r : ihex_binrec) : bool :=
  CInt.int (addr r) =? ISSP_FW_SECURITY_ADDR.

Definition hit_checksum (r : ihex_binrec) : bool :=
  CInt.int (addr r) =? ISSP_FW_CHECKSUM_ADDR.

Definition hit_version (va : Z) (r : ihex_binrec) : bool :=
  (va >? CInt.int (addr r)) &&
  (va <? CInt.add (CInt.int (addr r)) (len r)).

Definition hits (size va : Z) (r : ihex_binrec) : Z :=
  Z.b2z (hit_size size r) + Z.b2z (hit_security r) +
  Z.b2z (hit_checksum r) + Z.b2z (hit_version va r).

(** Number of records of a stream that meet a condition. *)
Definition count (p : ihex_binrec -> bool) (l : list ihex_binrec) : Z :=
  Z.of_nat (length (filter p l)).

Definition total_hits (size va : Z) (l : list ihex_binrec) : Z :=
  fold_right (fun r acc => hits size va r + acc) 0 l.

(** The values the loop body stores for a record. *)
Definition checksum_of (r : ihex_binrec) : Z :=
  CInt.u16 (Z.lor (Z.shiftl (byte_val (rec_data r 0)) 8)
                  (byte_val (rec_data r 1))).

Definition version_of (va : Z) (r : ihex_binrec) : Z :=
  byte_val (rec_data r (CInt.sub va (CInt.int (addr r)))).

(** The span test of the specification: the version address lies in the
    half-open interval from the record's address to its end. *)
Definition in_span (va : Z) (r : ihex_binrec) : Prop :=
  CInt.int (addr r) <= va < CInt.add (CInt.int (addr r)) (len r).

End CheckFw.

(** ** Sequential reading of the image *)

(** [issp_fw_rewind]: the cursor goes to [host->fw->data].  In an image
    that has records this is its first record; the statements below that
    speak of a [NULL] cursor are about such images. *)
Definition issp_fw_rewind (host : issp_host) : issp_host :=
  set_cursor host (fw host) 0.

Definition issp_fw_seek_security (host : issp_host) : issp_host :=
  set_cursor host (security_rec host) 0.

(** [issp_fw_get_byte].  [None]: there is no record under the cursor, and
    the call reads outside the records of the image.  In an image that has
    records this is the dereference of the [NULL] cursor left behind by the
    last record; after a rewind of an image without records it is a read at
    the end-of-stream marker, which the record model does not describe. *)
Definition issp_fw_get_byte (host : issp_host) : option (byte * issp_host) :=
  match cur_rec host with
  | [] => None
  | r :: _ =>
      let byte := rec_data r (cur_idx host) in
      let idx := CInt.add (cur_idx host) 1 in
      if idx >=? len r
      then Some (byte, set_cursor host (ihex_next_binrec (cur_rec host)) 0)
      else Some (byte, set_cursor host (cur_rec host) idx)
  end.

(** [n] successive calls of [issp_fw_get_byte], as the programming steps
    make them, with the bytes in the order they were returned. *)
Fixpoint issp_fw_get_bytes (n : nat) (host : issp_host)
  : option (list byte * issp_host) :=
  match n with
  | O => Some ([], host)
  | S n' =>
      match issp_fw_get_byte host with
      | None => None
      | Some (b, host') =>
          match issp_fw_get_bytes n' host' with
          | None => None
          | Some (bs, host'') => Some (b :: bs, host'')
          end
      end
  end.

(** All data bytes of a record stream, record after record. *)
Definition stream_bytes (l : list ihex_binrec) : list byte :=
  flat_map data l.

Definition stream_size (l : list ihex_binrec) : Z :=
  fold_right (fun r acc => len r + acc) 0 l.

(** A stream as the image format has it: every record carries the bytes
    its 16-bit length field announces, and at least one (a record of length
    zero is the end-of-stream marker). *)
Definition stream_wf (l : list ihex_binrec) : Prop :=
  Forall (fun r => binrec_wf r /\ 0 < len r <= 65535) l.

(** ** Calls into the rest of the kernel

    The driver's effects are the calls it makes to the programmer
    ([issp_uc_*], [issp_program], [issp_read_block]), to gpio, locking,
    power management and the dependent USB subsystem.  An execution is
    recorded as the list of these calls in program order. *)

Inductive call : Type :=
| dev_err (msg : string)
| dev_info (msg : string)
| devm_gpio_request (gpio : Z)
| gpio_direction_output (gpio value : Z)
| gpio_direction_input (gpio : Z)
| devm_kzalloc_host
| request_ihex_firmware
| release_firmware
| devm_kfree_host
| devm_kfree_wake_lock
| issp_uc_program
| issp_uc_run
| issp_uc_reset
| issp_read_block (idx addr len : Z)
| issp_program
| mutex_init
| mutex_lock
| mutex_unlock
| device_create_file (attr : string)
| devm_kzalloc_wake_lock
| wake_lock_init
| wake_lock
| wake_unlock
| create_workqueue
| INIT_DELAYED_WORK
| queue_delayed_work (msecs : Z)
| roth_usb_unload
| roth_usb_reload
| msleep (msecs : Z).

Definition call_eq_dec (a b : call) : {a = b} + {a <> b}.
Proof.
  decide equality; try apply Z.eq_dec; apply string_dec.
Defined.

(** ** The update decision: [issp_need_update] *)

(** What [issp_read_block] hands back: its return value and the content of
    the one-byte buffer [ver_uc] after the call. *)
Definition read_outcome : Type := (Z * byte)%type.

(** The block index and the offset inside the block that
    [issp_need_update] passes to the block read, both [uint8_t]. *)
Definition version_block (host : issp_host) : Z :=
  CInt.u8 (Z.quot (version_addr (pdata host)) (block_size (pdata host))).

Definition version_offset (host : issp_host) : Z :=
  CInt.u8 (CInt.sub (version_addr (pdata host))
                    (CInt.mul (version_block host) (block_size (pdata host)))).

(** [issp_need_update (host, &update)].  [read] stands for the programmer's
    block read, [update] is the content of [*update] before the call.  The
    result is the return value, the content of [*update] afterwards and the
    calls made.  The quotient by a zero block size is not defined in C. *)
Definition issp_need_update
           (read : issp_host -> Z -> Z -> Z -> read_outcome)
           (host : issp_host) (update : bool) : Z * bool * list call :=
  let idx :=
    CInt.u8 (Z.quot (version_addr (pdata host)) (block_size (pdata host))) in
  let addr :=
    CInt.u8 (CInt.sub (version_addr (pdata host))
                      (CInt.mul idx (block_size (pdata host)))) in
  let '(ret, ver_uc) := read host idx addr 1 in
  let ver_uc := byte_val ver_uc in
  if ret =? - EACCES then
    (0, true,
     [issp_read_block idx addr 1;
      dev_err "Version Block is protected, force upgrade!"])
  else if ret =? 1 then
    let update :=
      (ver_uc <? version_fw host) ||
      (negb (ver_uc =? version_fw host) && force_update (pdata host)) in
    (0, update,
     [issp_read_block idx addr 1;
      if update then dev_info "firmware needs upgrade, version 0x%02x -> 0x%02x"
      else dev_info "firmware version %02x is latest!"])
  else (ret, update, [issp_read_block idx addr 1]).

(** ** The attach sequence: [issp_probe] *)

(** What the kernel and the programmer answer during one attach.  Every
    one of these calls is made at most once per gpio, attribute or host
    state, so a fixed answer per argument describes a run.
    [env_update_initial] is the indeterminate content of the local variable
    [update], which [issp_probe] does not initialise. *)
Record probe_env : Type := mk_env {
  env_platform_data : option issp_platform_data;
  env_gpio_is_valid : Z -> bool;
  env_gpio_request : Z -> Z;
  env_kzalloc_host_ok : bool;
  env_request_firmware : Z;
  env_firmware : binrec_ptr;
  env_uc_program : issp_host -> issp_host;
  env_read_block : issp_host -> Z -> Z -> Z -> read_outcome;
  env_update_initial : bool;
  env_program : issp_host -> Z;
  env_create_file : string -> Z;
  env_kzalloc_wake_lock_ok : bool;
  env_create_workqueue_ok : bool
}.

(** The host as [devm_kzalloc] returns it (zeroed) with [pdata] and the
    loaded image filled in. *)
Definition fresh_host (pd : issp_platform_data) (image : binrec_ptr)
  : issp_host :=
  mk_host pd image [] 0 0 [] 0 (fun _ => 0).

(** [pre] happens, then the rest of the function [k]. *)
Definition after (pre : list call) (k : Z * list call) : Z * list call :=
  (fst k, pre ++ snd k).

Section Probe.

Variable ISSP_FW_SECURITY_ADDR : Z.
Variable ISSP_FW_CHECKSUM_ADDR : Z.
Variable env : probe_env.

(** The code from the label [err_id] to its [return 0]. *)
Definition probe_err_id (pd : issp_platform_data) : Z * list call :=
  (0, [issp_uc_run;
       gpio_direction_input (data_gpio pd);
       gpio_direction_input (clk_gpio pd);
       release_firmware]).

(** The code from the label [err] to its [return -ENOMEM]. *)
Definition probe_err (pd : issp_platform_data) : Z * list call :=
  (- ENOMEM, [gpio_direction_input (data_gpio pd);
              gpio_direction_input (clk_gpio pd);
              release_firmware;
              devm_kfree_host]).

(** The label [err_work] falls through to [err]. *)
Definition probe_err_work (pd : issp_platform_data) : Z * list call :=
  after [devm_kfree_wake_lock] (probe_err pd).

Definition create_file (attr : string) : list call :=
  device_create_file attr ::
  (if env_create_file env attr =? 0 then []
   else [dev_err "ISSP sysfs node create failed"]).

(** From [mutex_init] to the end of the function. *)
Definition probe_setup (pd : issp_platform_data) : Z * list call :=
  after ([mutex_init] ++ create_file "issp_reset"
           ++ create_file "issp_usbreset" ++ create_file "issp_data"
           ++ create_file "issp_clk" ++ [devm_kzalloc_wake_lock])
    (if negb (env_kzalloc_wake_lock_ok env) then probe_err pd
     else
       after [wake_lock_init; create_workqueue]
         (if negb (env_create_workqueue_ok env)
          then after [dev_err "can't create work queue"] (probe_err_work pd)
          else after [INIT_DELAYED_WORK] (probe_err_id pd))).

(** From the call of [issp_need_update] on. *)
Definition probe_update (pd : issp_platform_data) (host : issp_host)
  : Z * list call :=
  let '(ret, update, calls) :=
    issp_need_update (env_read_block env) host (env_update_initial env) in
  after calls
    (if negb (ret =? 0) then probe_err_id pd
     else if update then
       after [issp_program;
              if env_program env host =? 0
              then dev_info "Firmware update successfully!"
              else dev_err "Firmware update failed!"]
             (probe_setup pd)
     else probe_setup pd).

Definition si_id_mismatch (host : issp_host) (pd : issp_platform_data)
  : bool :=
  negb (si_id host 0%nat =? pd_si_id pd 0%nat) ||
  negb (si_id host 1%nat =? pd_si_id pd 1%nat) ||
  negb (si_id host 2%nat =? pd_si_id pd 2%nat) ||
  negb (si_id host 3%nat =? pd_si_id pd 3%nat).

(** From the call of [issp_check_fw] on. *)
Definition probe_firmware (pd : issp_platform_data) (host : issp_host)
  : Z * list call :=
  let '(ret, host) :=
    issp_check_fw ISSP_FW_SECURITY_ADDR ISSP_FW_CHECKSUM_ADDR host in
  if negb (ret =? 0) then after [dev_err "Firmware %s invalid!"] (probe_err pd)
  else
    let host := env_uc_program env host in
    after [issp_uc_program]
      (if si_id_mismatch host pd
       then after [dev_err "Sillicon ID check failed!"] (probe_err_id pd)
       else probe_update pd host).

(** The chain of [devm_gpio_request] calls: each one is made only when
    the ones before it returned 0. *)
Definition probe_gpio_requests (pd : issp_platform_data) : Z * list call :=
  let ret := env_gpio_request env (reset_gpio pd) in
  if negb (ret =? 0) then (ret, [devm_gpio_request (reset_gpio pd)])
  else
    let ret := env_gpio_request env (data_gpio pd) in
    if negb (ret =? 0)
    then (ret, [devm_gpio_request (reset_gpio pd);
                devm_gpio_request (data_gpio pd)])
    else (env_gpio_request env (clk_gpio pd),
          [devm_gpio_request (reset_gpio pd);
           devm_gpio_request (data_gpio pd);
           devm_gpio_request (clk_gpio pd)]).

(** The calls of a run that gets as far as [issp_check_fw]. *)
Definition probe_prologue (pd : issp_platform_data) : list call :=
  [devm_gpio_request (reset_gpio pd);
   devm_gpio_request (data_gpio pd);
   devm_gpio_request (clk_gpio pd);
   gpio_direction_output (reset_gpio pd) 0;
   gpio_direction_input (data_gpio pd);
   gpio_direction_output (clk_gpio pd) 0;
   devm_kzalloc_host;
   request_ihex_firmware].

(** [issp_probe]: the value returned and the calls made. *)
Definition issp_probe : Z * list call :=
  match env_platform_data env with
  | None => (- EINVAL, [dev_err "Invalid platform data!"])
  | Some pd =>
      if negb (env_gpio_is_valid env (reset_gpio pd)) ||
         negb (env_gpio_is_valid env (data_gpio pd)) ||
         negb (env_gpio_is_valid env (clk_gpio pd))
      then (- EINVAL, [dev_err "Invalid platform data!"])
      else
        let '(ret, requests) := probe_gpio_requests pd in
        if negb (ret =? 0) then (ret, requests)
        else
          after (requests ++
                 [gpio_direction_output (reset_gpio pd) 0;
                  gpio_direction_input (data_gpio pd);
                  gpio_direction_output (clk_gpio pd) 0;
                  devm_kzalloc_host])
            (if negb (env_kzalloc_host_ok env) then (- ENOMEM, [])
             else
               after [request_ihex_firmware]
                 (if negb (env_request_firmware env =? 0)
                  then (env_request_firmware env,
                        [dev_err "Request firmware %s failed!"])
                  else probe_firmware pd
                         (fresh_host pd (env_firmware env))))
  end.

(** The attach reached [issp_check_fw]: platform data and gpios were
    accepted, the host was allocated and the image was loaded. *)
Definition probe_reaches_check_fw (pd : issp_platform_data) : Prop :=
  env_platform_data env = Some pd /\
  env_gpio_is_valid env (reset_gpio pd) = true /\
  env_gpio_is_valid env (data_gpio pd) = true /\
  env_gpio_is_valid env (clk_gpio pd) = true /\
  env_gpio_request env (reset_gpio pd) = 0 /\
  env_gpio_request env (data_gpio pd) = 0 /\
  env_gpio_request env (clk_gpio pd) = 0 /\
  env_kzalloc_host_ok env = true /\
  env_request_firmware env = 0.

(** The host after validation and after the programmer's first contact,
    as the identity check and the update decision see it. *)
Definition probe_host (pd : issp_platform_data) : issp_host :=
  env_uc_program env
    (snd (issp_check_fw ISSP_FW_SECURITY_ADDR ISSP_FW_CHECKSUM_ADDR
            (fresh_host pd (env_firmware env)))).

Definition probe_fw_valid (pd : issp_platform_data) : Prop :=
  fst (issp_check_fw ISSP_FW_SECURITY_ADDR ISSP_FW_CHECKSUM_ADDR
         (fresh_host pd (env_firmware env))) = 0.

End Probe.

(** The controller is left running and the lines released: the run ends
    with the run step, the two lines switched to input, and only then the
    one release of the image. *)
Definition left_running (pd : issp_platform_data) (tr : list call) : Prop :=
  exists pre,
    tr = pre ++ [issp_uc_run;
                 gpio_direction_input (data_gpio pd);
                 gpio_direction_input (clk_gpio pd);
                 release_firmware] /\
    ~ In release_firmware pre.

(** The lines are released before the image without a run step: the
    ending of the paths through the label [err]. *)
Definition released_without_run (pd : issp_platform_data) (tr : list call)
  : Prop :=
  (exists pre,
     tr = pre ++ [gpio_direction_input (data_gpio pd);
                  gpio_direction_input (clk_gpio pd);
                  release_firmware;
                  devm_kfree_host] /\
     ~ In release_firmware pre) /\
  ~ In issp_uc_run tr.

(** ** The reset paths *)

(** Modelled from the spec: the wake lock (linux/wakelock.h) is the
    suspend-inhibiting guard, a resource that is either held or not.
    [g_issp_wake_lock] is [None] while the pointer is [NULL] and [Some held]
    once the lock object exists.  [issp_workqueue] tells whether the work
    queue pointer is set. *)
Record issp_globals : Type := mk_globals {
  g_issp_wake_lock : option bool;
  issp_workqueue : bool
}.

Definition guard_held (g : issp_globals) : Prop :=
  g_issp_wake_lock g = Some true.

Definition ISSP_RECOVERY_DELAY : Z := 10.

(** The body of the loop of [issp_recovery_work_func] at index [i]. *)
Definition recovery_attempt (i : nat) : list call :=
  [dev_info "%s: recovery attempt #%d"; mutex_lock; roth_usb_unload;
   issp_uc_reset; roth_usb_reload; mutex_unlock; msleep 500].

(** [issp_recovery_work_func]: the calls it makes, given the globals it
    reads.  The loop is [for (i = 0; i < 1; i++)]. *)
Definition issp_recovery_work_func (g : issp_globals) : list call :=
  dev_info "%s" ::
  match g_issp_wake_lock g with
  | None => [dev_err "%s: wake_lock null!!"]
  | Some _ => flat_map recovery_attempt (List.seq 0 1) ++ [wake_unlock]
  end.

Definition issp_start_recovery_work (g : issp_globals) : list call :=
  dev_info "%s" ::
  (if negb (issp_workqueue g) then [dev_err "%s: no workqueue!"]
   else [wake_lock; queue_delayed_work ISSP_RECOVERY_DELAY]).

Definition issp_reset_set : list call :=
  [wake_lock; mutex_lock; issp_uc_reset; mutex_unlock; wake_unlock;
   dev_info "issp: toggling reset pin on uC!"].

Definition issp_usbreset_set : list call :=
  [wake_lock; mutex_lock; roth_usb_unload; issp_uc_reset; roth_usb_reload;
   mutex_unlock; wake_unlock; dev_info "issp: reset both usb and uC!"].

(** Modelled from the spec: what a call does to the guard.  [wake_lock]
    makes it held, [wake_unlock] makes it not held; the guard is not
    counted.  No other call touches it. *)
Definition guard_effect (c : call) (wl : option bool) : option bool :=
  match c, wl with
  | wake_lock, Some _ => Some true
  | wake_unlock, Some _ => Some false
  | _, _ => wl
  end.

(** The globals after a path has run to its end. *)
Definition globals_after (calls : list call) (g : issp_globals)
  : issp_globals :=
  mk_globals (fold_left (fun wl c => guard_effect c wl) calls
                        (g_issp_wake_lock g))
             (issp_workqueue g).

Definition is_call (c d : call) : bool :=
  if call_eq_dec c d then true else false.

(** The calls that reset the controller or tear down and rebuild the USB
    subsystem. *)
Definition reset_affecting (c : call) : bool :=
  is_call c roth_usb_unload || is_call c issp_uc_reset ||
  is_call c roth_usb_reload.

(** ** Interleaved execution of the reset paths

    Modelled from the spec: [mutex_lock] and [mutex_unlock] (linux/mutex.h)
    act on the single exclusive lock [g_issp_host->issp_lock]; a context
    that asks for the lock while another one holds it waits.  Each context
    runs one of the reset paths; [threads] holds what every context still
    has to execute and [owner] the context holding the lock, if any. *)
Record machine : Type := mk_machine {
  threads : list (list call);
  owner : option nat
}.

Fixpoint set_thread (l : list (list call)) (i : nat) (t : list call)
  : list (list call) :=
  match l, i with
  | [], _ => []
  | _ :: l', O => t :: l'
  | x :: l', S i' => x :: set_thread l' i' t
  end.

(** Context [i] executes its next call.  [None]: the context does not
    exist, has finished, waits for the lock, or would release a lock it
    does not hold. *)
Definition step (m : machine) (i : nat) : option (call * machine) :=
  match nth_error (threads m) i with
  | None => None
  | Some [] => None
  | Some (c :: rest) =>
      if is_call c mutex_lock then
        match owner m with
        | None => Some (c, mk_machine (set_thread (threads m) i rest) (Some i))
        | Some _ => None
        end
      else if is_call c mutex_unlock then
        match owner m with
        | Some j =>
            if Nat.eqb i j
            then Some (c, mk_machine (set_thread (threads m) i rest) None)
            else None
        | None => None
        end
      else Some (c, mk_machine (set_thread (threads m) i rest) (owner m))
  end.

(** A schedule names the context that moves at each step. *)
Fixpoint run (m : machine) (sched : list nat) : option machine :=
  match sched with
  | [] => Some m
  | i :: sched' =>
      match step m i with
      | None => None
      | Some (_, m') => run m' sched'
      end
  end.

(** A context is inside its critical section when it still has its
    [mutex_unlock] ahead and no [mutex_lock] any more. *)
Definition in_critical_section (t : list call) : bool :=
  existsb (fun c => is_call c mutex_unlock) t &&
  negb (existsb (fun c => is_call c mutex_lock) t).

(** The three reset paths, as started with the globals [g]. *)
Definition reset_paths (g : issp_globals) : list (list call) :=
  [issp_reset_set; issp_usbreset_set; issp_recovery_work_func g].

(** All contexts at the start of a reset path, the lock free. *)
Definition initial (g : issp_globals) (m : machine) : Prop :=
  owner m = None /\ Forall (fun t => In t (reset_paths g)) (threads m).

(** ** A small image and configuration

    Two data records covering two blocks of four bytes, a security record
    and a checksum record; the version byte is the second byte of the
    second data record.  [SECURITY_ADDR] and [CHECKSUM_ADDR] are the
    reserved addresses used in the examples. *)

Definition SECURITY_ADDR : Z := 0x00100000.
Definition CHECKSUM_ADDR : Z := 0x00200000.

Definition sample_pdata : issp_platform_data :=
  mk_pdata 10 11 12 "issp.hex" (fun _ => 0) 4 2 5 false.

Definition sample_fw : binrec_ptr :=
  [mk_binrec 0 4 [x01; x02; x03; x04];
   mk_binrec 4 4 [x05; x06; x07; x08];
   mk_binrec SECURITY_ADDR 2 [xaa; xbb];
   mk_binrec CHECKSUM_ADDR 2 [x12; x34]].

Definition sample_host : issp_host := fresh_host sample_pdata sample_fw.

(** Every point of a path: the calls still ahead at each of them. *)
Fixpoint suffixes (l : list call) : list (list call) :=
  l :: match l with
       | [] => []
       | _ :: t => suffixes t
       end.

(** What a context that runs one of the reset paths may still have to
    execute. *)
Definition thread_state (g : issp_globals) (t : list call) : Prop :=
  In t (flat_map suffixes (reset_paths g)).

(** The lock is held by the one context inside its critical section. *)
Definition lock_invariant (g : issp_globals) (m : machine) : Prop :=
  Forall (thread_state g) (threads m) /\
  forall i t, nth_error (threads m) i = Some t ->
              (in_critical_section t = true <-> owner m = Some i).

(** The set-up after a complete attach: lock object and work queue exist,
    the guard is not held. *)
Definition attached : issp_globals := mk_globals (Some false) true.

(** Before the wake lock is allocated. *)
Definition no_wake_lock : issp_globals := mk_globals None true.

(** A recovery is scheduled, and a manual pin reset runs before the delayed
    work fires. *)
Definition reset_before_recovery : issp_globals :=
  globals_after issp_reset_set
    (globals_after (issp_start_recovery_work attached) attached).

(** A manual pin reset, a manual full reset and a recovery in flight. *)
Definition three_contexts : machine :=
  mk_machine [issp_reset_set; issp_usbreset_set;
              issp_recovery_work_func attached] None.

(** The pin reset takes the lock and resets; meanwhile the full reset takes
    the guard and the recovery logs; after the pin reset has released the
    lock the recovery takes it and unloads the USB subsystem. *)
Definition sample_schedule : list nat :=
  [0; 0; 1; 2; 2; 0; 0; 2; 2]%nat.

(** An attach with the sample configuration in which every kernel call
    succeeds: [image] is the loaded firmware, [id] the silicon identity the
    programmer reads, [read] the answer of the block read, [update0] the
    initial content of [update], [prog] the result of programming. *)
Definition sample_env (image : binrec_ptr) (id : nat -> Z)
           (read : read_outcome) (update0 : bool) (prog : Z) : probe_env :=
  mk_env (Some sample_pdata) (fun _ => true) (fun _ => 0) true 0 image
         (fun h => set_si_id h id) (fun _ _ _ _ => read) update0
         (fun _ => prog) (fun _ => 0) true true.

(** The loaded image holds only the first data record. *)
Definition invalid_env : probe_env :=
  sample_env [mk_binrec 0 4 [x01; x02; x03; x04]] (fun _ => 0)
             (1, x06) false 0.

(** The last identity byte read from the device is 1, the expected one 0. *)
Definition mismatch_env : probe_env :=
  sample_env sample_fw (fun i => if Nat.eqb i 3 then 1 else 0)
             (1, x06) false 0.

(** The block read returns 0 and [update] happens to start as true. *)
Definition zero_read_env : probe_env :=
  sample_env sample_fw (fun _ => 0) (0, x00) true 0.

(** The block read fails with -5 (EIO). *)
Definition failed_read_env : probe_env :=
  sample_env sample_fw (fun _ => 0) (-5, x00) true 0.

(** The device holds version 3, the image version 6; programming fails. *)
Definition outdated_env : probe_env :=
  sample_env sample_fw (fun _ => 0) (1, x03) false (-5).

(** The device holds version 3, the image version 6, programming succeeds,
    and the allocation of the wake lock fails afterwards. *)
Definition no_wake_lock_env : probe_env :=
  mk_env (Some sample_pdata) (fun _ => true) (fun _ => 0) true 0 sample_fw
         (fun h => set_si_id h (fun _ => 0)) (fun _ _ _ _ => (1, x03)) false
         (fun _ => 0) (fun _ => 0) false true.

(** The request of the clock gpio fails with -16 (EBUSY). *)
Definition clk_busy_env : probe_env :=
  mk_env (Some sample_pdata) (fun _ => true)
         (fun gpio => if gpio =? 12 then -16 else 0) true 0 sample_fw
         (fun h => set_si_id h (fun _ => 0)) (fun _ _ _ _ => (1, x03)) false
         (fun _ => 0) (fun _ => 0) true true.

(** The sample image with its second data record replaced by a shorter one
    that does not reach down to the version address, and with the security
    record stored twice. *)
Definition dup_fw : binrec_ptr :=
  [mk_binrec 6 2 [x07; x08];
   mk_binrec SECURITY_ADDR 2 [xaa; xbb];
   mk_binrec SECURITY_ADDR 2 [xaa; xbb];
   mk_binrec CHECKSUM_ADDR 2 [x12; x34]].

Definition dup_host : issp_host := fresh_host sample_pdata dup_fw.

(** The sample configuration with the version byte at the first byte of
    the second data record. *)
Definition start_pdata : issp_platform_data :=
  mk_pdata 10 11 12 "issp.hex" (fun _ => 0) 4 2 4 false.

Definition start_host : issp_host := fresh_host start_pdata sample_fw.

(** ** Observations on an attach *)

(** The calls that reach the controller through the programmer. *)
Definition programmer_call (c : call) : bool :=
  match c with
  | issp_uc_program | issp_uc_run | issp_uc_reset | issp_program
  | issp_read_block _ _ _ => true
  | _ => false
  end.

(** What [issp_need_update] answers during the attach: its return value,
    the decision and the calls it makes. *)
Definition probe_decision (SEC CHK : Z) (env : probe_env)
           (pd : issp_platform_data) : Z * bool * list call :=
  issp_need_update (env_read_block env) (probe_host SEC CHK env pd)
                   (env_update_initial env).

(** How often a call occurs in a run. *)
Definition occurrences (c : call) (tr : list call) : nat :=
  count_occ call_eq_dec tr c.

(** ** The read cursor *)

(** The cursor designates a record of the image and a byte inside it, or is
    [NULL] with offset 0. *)
Definition cursor_ok (h : issp_host) : Prop :=
  (exists pre, fw h = pre ++ cur_rec h) /\
  match cur_rec h with
  | [] => cur_idx h = 0
  | r :: _ => 0 <= cur_idx h < len r
  end.

(** ** The data-line attribute: [issp_data_set] *)

(** What the handler of the [issp_data] attribute does besides returning:
    it sets the level of a gpio and logs. *)
Inductive line_call : Type :=
| gpio_set_value (gpio value : Z)
| line_log (c : call).

(** [issp_data_set].  [kstrtoul buf base] stands for the kernel's parser:
    its return value and the content of [val] after the call.  The result
    is the value returned to the writer and the calls made. *)
Definition issp_data_set (kstrtoul : string -> Z -> Z * Z)
           (pd : issp_platform_data) (buf : string) (count : Z)
  : Z * list line_call :=
  let '(ret, val) := kstrtoul buf 10 in
  if ret =? 0 then
    if (val =? 1) || (val =? 0)
    then (count, [gpio_set_value (data_gpio pd) val;
                  line_log (dev_err "issp: set data gpio to %d")])
    else (count, [])
  else (count, []).

(** ** Measures of the interleaved execution *)

(** The calls all contexts together still have to execute. *)
Definition remaining (m : machine) : nat :=
  fold_right (fun t n => (length t + n)%nat) 0%nat (threads m).

(** The holder of the lock is one of the contexts. *)
Definition owner_exists (m : machine) : Prop :=
  forall i, owner m = Some i ->
            exists t, nth_error (threads m) i = Some t.

(** An interleaved execution together with the calls it makes, in the
    order in which the contexts make them. *)
Fixpoint run_calls (m : machine) (sched : list nat)
  : option (list call * machine) :=
  match sched with
  | [] => Some ([], m)
  | i :: sched' =>
      match step m i with
      | None => None
      | Some (c, m1) =>
          match run_calls m1 sched' with
          | None => None
          | Some (tr, m') => Some (c :: tr, m')
          end
      end
  end.

(** * Properties *)

(** ** Arithmetic of the C types *)

Lemma int_small z : - 2 ^ 31 <= z < 2 ^ 31 -> CInt.int z = z.
Proof.
  intros H. unfold CInt.int.
  rewrite Z.mod_small; lia.
Qed.

Lemma int_range z : - 2 ^ 31 <= CInt.int z < 2 ^ 31.
Proof.
  unfold CInt.int.
  pose proof (Z.mod_pos_bound (z + 2 ^ 31) (2 ^ 32) ltac:(lia)). lia.
Qed.

(** Adding a 16-bit length to an [int] wraps at most once. *)
Lemma int_add_len a l :
  - 2 ^ 31 <= a < 2 ^ 31 -> 0 <= l <= 65535 ->
  CInt.add a l = a + l \/ CInt.add a l = a + l - 2 ^ 32.
Proof.
  intros Ha Hl. unfold CInt.add, CInt.int.
  pose proof (Z.div_mod (a + l + 2 ^ 31) (2 ^ 32) ltac:(lia)) as Hdm.
  pose proof (Z.mod_pos_bound (a + l + 2 ^ 31) (2 ^ 32) ltac:(lia)) as Hb.
  lia.
Qed.

Lemma byte_val_range b : 0 <= byte_val b < 256.
Proof.
  unfold byte_val. pose proof (Byte.to_N_bounded b). lia.
Qed.

(** The two bytes of a big-endian 16-bit value do not overlap. *)
Lemma be16_value hi lo :
  0 <= hi < 256 -> 0 <= lo < 256 ->
  CInt.u16 (Z.lor (Z.shiftl hi 8) lo) = 256 * hi + lo.
Proof.
  intros Hhi Hlo. unfold CInt.u16.
  assert (Hdisj : Z.land (Z.shiftl hi 8) lo = 0).
  { apply Z.bits_inj'. intros n Hn.
    rewrite Z.land_spec, Z.bits_0.
    destruct (Z.ltb_spec n 8).
    - rewrite Z.shiftl_spec_low by lia. reflexivity.
    - assert (Hz : Z.testbit lo n = false).
      { destruct (Z.eq_dec lo 0) as [->|Hne]; [apply Z.bits_0|].
        apply Z.bits_above_log2; [lia|].
        apply Z.log2_lt_pow2; [lia|].
        apply Z.lt_le_trans with (2 ^ 8); [lia|].
        apply Z.pow_le_mono_r; lia. }
      rewrite Hz. apply andb_false_r. }
  rewrite <- Z.lxor_lor by exact Hdisj.
  rewrite <- Z.add_nocarry_lxor by exact Hdisj.
  rewrite Z.shiftl_mul_pow2 by lia.
  rewrite Z.mod_small; lia.
Qed.

(** ** The cursor over the image *)

Lemma set_cursor_twice h p i q j :
  set_cursor (set_cursor h p i) q j = set_cursor h q j.
Proof. reflexivity. Qed.

Lemma stream_size_nonneg l : stream_wf l -> 0 <= stream_size l.
Proof.
  induction 1 as [|r l [_ Hr] _ IH]; simpl; lia.
Qed.

(** A call at the last byte of a record moves the cursor to the next record
    and resets the offset; any earlier call only advances the offset. *)
Lemma issp_fw_get_byte_step h r next :
  cur_rec h = r :: next ->
  0 <= cur_idx h < len r -> len r <= 65535 ->
  issp_fw_get_byte h =
  Some (rec_data r (cur_idx h),
        if cur_idx h + 1 =? len r then set_cursor h next 0
        else set_cursor h (r :: next) (cur_idx h + 1)).
Proof.
  intros Hrec Hidx Hlen. unfold issp_fw_get_byte. rewrite Hrec.
  unfold CInt.add. rewrite int_small by lia.
  unfold ihex_next_binrec. simpl tl.
  destruct (Z.geb_spec (cur_idx h + 1) (len r));
    destruct (Z.eqb_spec (cur_idx h + 1) (len r)); try lia; reflexivity.
Qed.

(** Reading from offset [k] of the current record to its end. *)
Lemma issp_fw_get_bytes_record m :
  forall h r next k n,
    cur_rec h = r :: next -> cur_idx h = Z.of_nat k ->
    binrec_wf r -> len r <= 65535 ->
    (k + S m = length (data r))%nat ->
    issp_fw_get_bytes (S m + n) h =
    match issp_fw_get_bytes n (set_cursor h next 0) with
    | Some (bs, h') => Some (skipn k (data r) ++ bs, h')
    | None => None
    end.
Proof.
  induction m as [|m IH]; intros h r next k n Hrec Hidx Hwf Hlen Hk;
    unfold binrec_wf in Hwf.
  - change (S 0 + n)%nat with (S n). cbn [issp_fw_get_bytes].
    rewrite (issp_fw_get_byte_step h r next) by (auto; lia).
    replace (cur_idx h + 1 =? len r) with true
      by (symmetry; apply Z.eqb_eq; lia).
    assert (Hskip : skipn k (data r) = [rec_data r (cur_idx h)]).
    { unfold rec_data. rewrite Hidx.
      replace (Z.of_nat k <? 0) with false by (symmetry; apply Z.ltb_ge; lia).
      rewrite Nat2Z.id.
      rewrite <- (firstn_skipn k (data r)) at 2.
      assert (Hf : length (firstn k (data r)) = k)
        by (rewrite length_firstn; lia).
      rewrite app_nth2 by lia. rewrite Hf, Nat.sub_diag.
      assert (Hl : length (skipn k (data r)) = 1%nat)
        by (rewrite length_skipn; lia).
      destruct (skipn k (data r)) as [|b [|b' l]]; simpl in Hl; try lia.
      reflexivity. }
    rewrite Hskip.
    destruct (issp_fw_get_bytes n (set_cursor h next 0)) as [[bs h']|];
      reflexivity.
  - change (S (S m) + n)%nat with (S (S m + n)). cbn [issp_fw_get_bytes].
    rewrite (issp_fw_get_byte_step h r next) by (auto; lia).
    replace (cur_idx h + 1 =? len r) with false
      by (symmetry; apply Z.eqb_neq; lia).
    rewrite (IH (set_cursor h (r :: next) (cur_idx h + 1)) r next (S k) n);
      try reflexivity; auto; try lia; [|simpl; lia].
    rewrite set_cursor_twice.
    assert (Hskip : skipn k (data r)
                    = rec_data r (cur_idx h) :: skipn (S k) (data r)).
    { unfold rec_data. rewrite Hidx.
      replace (Z.of_nat k <? 0) with false by (symmetry; apply Z.ltb_ge; lia).
      rewrite Nat2Z.id.
      rewrite <- (firstn_skipn k (data r)) at 2.
      assert (Hf : length (firstn k (data r)) = k)
        by (rewrite length_firstn; lia).
      rewrite app_nth2 by lia. rewrite Hf, Nat.sub_diag.
      assert (Hl : length (skipn k (data r)) = S (S m))
        by (rewrite length_skipn; lia).
      change (S k) with (1 + k)%nat. rewrite <- skipn_skipn.
      destruct (skipn k (data r)) as [|b l]; simpl in Hl; try lia.
      reflexivity. }
    rewrite Hskip.
    destruct (issp_fw_get_bytes n (set_cursor h next 0)) as [[bs h']|];
      reflexivity.
Qed.

(** Reading a whole stream from the start of its first record. *)
Lemma issp_fw_get_bytes_from l :
  forall h, stream_wf l ->
    issp_fw_get_bytes (Z.to_nat (stream_size l)) (set_cursor h l 0) =
    Some (stream_bytes l, set_cursor h [] 0).
Proof.
  induction l as [|r next IH]; intros h Hwf.
  - reflexivity.
  - inversion Hwf as [|r' l' [Hr Hlen] Hnext]; subst.
    pose proof (stream_size_nonneg next Hnext) as Hpos.
    unfold binrec_wf in Hr.
    cbn [stream_size fold_right]. fold (stream_size next).
    replace (Z.to_nat (len r + stream_size next))
      with (S (pred (length (data r))) + Z.to_nat (stream_size next))%nat
      by lia.
    rewrite (issp_fw_get_bytes_record _ (set_cursor h (r :: next) 0)
               r next 0%nat); auto; try lia.
    rewrite set_cursor_twice, IH by assumption.
    reflexivity.
Qed.

(** C10: after a rewind, as many calls of [issp_fw_get_byte] as the records
    of the image have data bytes (the sum of their lengths) return exactly
    the data bytes of all records in stream order, crossing every record
    boundary, and leave the cursor past the last record; a second rewind
    followed by the same number of calls returns the same bytes again. *)
Theorem issp_fw_get_bytes_stream (host : issp_host) :
  stream_wf (fw host) ->
  let n := Z.to_nat (stream_size (fw host)) in
  length (stream_bytes (fw host)) = n /\
  exists host',
    issp_fw_get_bytes n (issp_fw_rewind host)
    = Some (stream_bytes (fw host), host') /\
    cur_rec host' = [] /\
    issp_fw_get_bytes n (issp_fw_rewind host')
    = Some (stream_bytes (fw host), host').
Proof.
  intros Hwf n. split.
  - subst n. induction Hwf as [|r l [Hr Hlen] Hl IH]; [reflexivity|].
    pose proof (stream_size_nonneg l Hl).
    unfold binrec_wf in Hr.
    cbn [stream_bytes flat_map stream_size fold_right].
    fold (stream_bytes l). fold (stream_size l).
    rewrite length_app, IH. lia.
  - exists (set_cursor host [] 0). unfold issp_fw_rewind.
    repeat split.
    + apply issp_fw_get_bytes_from; assumption.
    + change (fw (set_cursor host [] 0)) with (fw host).
      rewrite set_cursor_twice.
      apply issp_fw_get_bytes_from; assumption.
Qed.

Lemma issp_fw_get_bytes_stream_witness :
  let n := Z.to_nat (stream_size (fw sample_host)) in
  length (stream_bytes (fw sample_host)) = n /\
  exists host',
    issp_fw_get_bytes n (issp_fw_rewind sample_host)
    = Some (stream_bytes (fw sample_host), host') /\
    cur_rec host' = [] /\
    issp_fw_get_bytes n (issp_fw_rewind host')
    = Some (stream_bytes (fw sample_host), host').
Proof.
  apply (issp_fw_get_bytes_stream sample_host).
  repeat (constructor; [split; [reflexivity | simpl; lia] |]).
  constructor.
Defined.

(** ** The update decision *)

(** C2: when the one-byte read of the device version succeeds, the decision
    is true exactly when the device version is below the embedded one, or
    differs from it while the force-update flag is set; when the read is
    refused because the block is protected, the decision is true whatever
    the versions are; [issp_need_update] returns 0 in both cases. *)
Theorem issp_need_update_decision
        (read : issp_host -> Z -> Z -> Z -> read_outcome)
        (host : issp_host) (update : bool) (ret : Z) (ver_uc : byte) :
  read host (version_block host) (version_offset host) 1 = (ret, ver_uc) ->
  (ret = 1 ->
   fst (fst (issp_need_update read host update)) = 0 /\
   (snd (fst (issp_need_update read host update)) = true <->
    byte_val ver_uc < version_fw host \/
    (byte_val ver_uc <> version_fw host /\
     force_update (pdata host) = true))) /\
  (ret = - EACCES ->
   fst (fst (issp_need_update read host update)) = 0 /\
   snd (fst (issp_need_update read host update)) = true).
Proof.
  intros Hread. unfold issp_need_update.
  fold (version_block host). fold (version_offset host).
  rewrite Hread. split; intros ->.
  - change (1 =? - EACCES) with false. change (1 =? 1) with true.
    cbn [fst snd]. split; [reflexivity|].
    rewrite orb_true_iff, andb_true_iff, negb_true_iff.
    rewrite Z.ltb_lt, Z.eqb_neq. reflexivity.
  - rewrite Z.eqb_refl. split; reflexivity.
Qed.

Lemma issp_need_update_decision_witness :
  (1 = 1 ->
   fst (fst (issp_need_update (fun _ _ _ _ => (1, x10))
                              (set_version_fw sample_host 0x12) false)) = 0 /\
   (snd (fst (issp_need_update (fun _ _ _ _ => (1, x10))
                               (set_version_fw sample_host 0x12) false))
    = true <->
    byte_val x10 < version_fw (set_version_fw sample_host 0x12) \/
    (byte_val x10 <> version_fw (set_version_fw sample_host 0x12) /\
     force_update (pdata (set_version_fw sample_host 0x12)) = true))) /\
  (1 = - EACCES ->
   fst (fst (issp_need_update (fun _ _ _ _ => (1, x10))
                              (set_version_fw sample_host 0x12) false)) = 0 /\
   snd (fst (issp_need_update (fun _ _ _ _ => (1, x10))
                              (set_version_fw sample_host 0x12) false))
   = true).
Proof.
  apply (issp_need_update_decision (fun _ _ _ _ => (1, x10))
           (set_version_fw sample_host 0x12) false 1 x10).
  reflexivity.
Defined.

(** ** Firmware validation *)

Section CheckFwProperties.

Variable SEC : Z.
Variable CHK : Z.


(** What one iteration does to the counter and to the host. *)
Lemma check_fw_rec_spec size rec r h c :
  let va := version_addr (pdata h) in
  let res := check_fw_rec SEC CHK size rec r h c in
  snd res = c + hits SEC CHK size va r /\
  pdata (fst res) = pdata h /\
  fw (fst res) = fw h /\
  checksum_fw (fst res)
  = (if hit_checksum CHK r then checksum_of r else checksum_fw h) /\
  version_fw (fst res)
  = (if hit_version va r then version_of va r else version_fw h).
Proof.
  unfold check_fw_rec, hits, hit_size, hit_security,
    hit_checksum, hit_version, checksum_of, version_of.
  destruct (CInt.add (CInt.int (addr r)) (len r) =? size);
    destruct (CInt.int (addr r) =? SEC);
    destruct (CInt.int (addr r) =? CHK); cbn [pdata set_security_rec
      set_checksum_fw set_version_fw];
    destruct ((version_addr (pdata h) >? CInt.int (addr r)) &&
              (version_addr (pdata h)
               <? CInt.add (CInt.int (addr r)) (len r)));
    cbn; repeat split; lia.
Qed.

Lemma hits_range size va r : 0 <= hits SEC CHK size va r <= 4.
Proof.
  unfold hits.
  destruct (hit_size size r), (hit_security SEC r), (hit_checksum CHK r),
    (hit_version va r); cbn; lia.
Qed.

Lemma total_hits_nonneg size va l : 0 <= total_hits SEC CHK size va l.
Proof.
  induction l as [|r l IH]; cbn; [lia|].
  fold (total_hits SEC CHK size va l). pose proof (hits_range size va r). lia.
Qed.

Lemma total_hits_In size va l r :
  In r l -> hits SEC CHK size va r <= total_hits SEC CHK size va l.
Proof.
  induction l as [|x l IH]; cbn; [tauto|].
  fold (total_hits SEC CHK size va l).
  pose proof (total_hits_nonneg size va l).
  pose proof (hits_range size va x).
  intros [->|Hin]; [lia|]. specialize (IH Hin). lia.
Qed.

Lemma check_fw_loop_pdata size recs :
  forall h c, pdata (fst (check_fw_loop SEC CHK size recs h c)) = pdata h.
Proof.
  induction recs as [|r next IH]; intros h c; [reflexivity|].
  cbn [check_fw_loop].
  destruct (check_fw_rec_spec size (r :: next) r h c) as (_ & Hpd & _).
  destruct (check_fw_rec SEC CHK size (r :: next) r h c) as [h1 c1].
  cbn [fst] in Hpd.
  destruct (c1 =? 4); [exact Hpd|].
  rewrite IH. exact Hpd.
Qed.

(** The counter reaches four exactly when the conditions met by the
    records, counted once per record and condition, are at least four. *)
Lemma check_fw_loop_checks size recs :
  forall h c,
    4 <= snd (check_fw_loop SEC CHK size recs h c) <->
    4 <= c + total_hits SEC CHK size (version_addr (pdata h)) recs.
Proof.
  induction recs as [|r next IH]; intros h c.
  - cbn. rewrite Z.add_0_r. reflexivity.
  - cbn [check_fw_loop total_hits fold_right].
    fold (total_hits SEC CHK size (version_addr (pdata h)) next).
    pose proof (total_hits_nonneg size (version_addr (pdata h)) next).
    destruct (check_fw_rec_spec size (r :: next) r h c) as (Hc & Hpd & _).
    destruct (check_fw_rec SEC CHK size (r :: next) r h c) as [h1 c1].
    cbn [fst snd] in Hc, Hpd.
    destruct (Z.eqb_spec c1 4) as [E|E].
    + cbn [snd]. lia.
    + rewrite IH, Hpd. lia.
Qed.

Lemma issp_check_fw_ret h :
  let size := CInt.mul (block_size (pdata h)) (blocks (pdata h)) in
  (fst (issp_check_fw SEC CHK h) = 0 <->
   4 <= total_hits SEC CHK size (version_addr (pdata h)) (fw h)) /\
  (fst (issp_check_fw SEC CHK h) <> 0 ->
   fst (issp_check_fw SEC CHK h) = - EINVAL).
Proof.
  intros size. unfold issp_check_fw. fold size.
  pose proof (check_fw_loop_checks size (fw h) h 0) as Hc.
  destruct (check_fw_loop SEC CHK size (fw h) h 0) as [h1 c1].
  cbn [snd] in Hc.
  destruct (Z.ltb_spec c1 4); cbn [fst]; unfold EINVAL; split;
    try (split; intros; lia); intros; try reflexivity; lia.
Qed.

Lemma count_nonneg p l : 0 <= count p l.
Proof. unfold count. lia. Qed.

Lemma count_cons p r l :
  count p (r :: l) = Z.b2z (p r) + count p l.
Proof.
  unfold count. cbn [filter]. destruct (p r); cbn [length Z.b2z]; lia.
Qed.

Lemma count_pos p l :
  1 <= count p l <-> exists r, In r l /\ p r = true.
Proof.
  induction l as [|x l IH].
  - cbn. split; [lia|]. intros (r & [] & _).
  - rewrite count_cons. pose proof (count_nonneg p l).
    split.
    + destruct (p x) eqn:Hx; cbn [Z.b2z]; intros Hc.
      * exists x. split; [left; reflexivity|assumption].
      * destruct IH as [IH _]. destruct IH as (r & Hin & Hr); [lia|].
        exists r. split; [right; assumption|assumption].
    + intros (r & [->|Hin] & Hr).
      * rewrite Hr. cbn [Z.b2z]. lia.
      * destruct IH as [_ IH].
        assert (1 <= count p l) by (apply IH; exists r; auto).
        destruct (p x); cbn [Z.b2z]; lia.
Qed.

Lemma total_hits_counts size va l :
  total_hits SEC CHK size va l
  = count (hit_size size) l + count (hit_security SEC) l
    + count (hit_checksum CHK) l + count (hit_version va) l.
Proof.
  induction l as [|r l IH]; [reflexivity|].
  cbn [total_hits fold_right]. fold (total_hits SEC CHK size va l).
  rewrite IH, !count_cons. unfold hits. lia.
Qed.

(** A field that the loop body sets from every record meeting a condition
    holds, after a scan that found exactly four conditions in total, the
    value of the one record that meets the condition. *)
Lemma check_fw_loop_field {A : Type} (g : issp_host -> A)
      (p : ihex_binrec -> bool) (v : ihex_binrec -> A)
      (pd : issp_platform_data) (size : Z) :
  (forall rec r h c, pdata h = pd ->
     g (fst (check_fw_rec SEC CHK size rec r h c))
     = if p r then v r else g h) ->
  (forall r, p r = true -> 1 <= hits SEC CHK size (version_addr pd) r) ->
  forall recs h c,
    pdata h = pd ->
    c + total_hits SEC CHK size (version_addr pd) recs = 4 ->
    count p recs <= 1 ->
    (count p recs = 0 -> g (fst (check_fw_loop SEC CHK size recs h c)) = g h) /\
    (forall r0, In r0 recs -> p r0 = true ->
       g (fst (check_fw_loop SEC CHK size recs h c)) = v r0).
Proof.
  intros Hbody Hhit.
  induction recs as [|r next IH]; intros h c Hpd Hsum Hcnt.
  - split; [reflexivity|]. intros r0 [].
  - cbn [check_fw_loop].
    cbn [total_hits fold_right] in Hsum.
    fold (total_hits SEC CHK size (version_addr pd) next) in Hsum.
    rewrite count_cons in Hcnt |- *.
    pose proof (count_nonneg p next) as Hnn.
    pose proof (total_hits_nonneg size (version_addr pd) next) as Htn.
    specialize (Hbody (r :: next) r h c Hpd).
    destruct (check_fw_rec_spec size (r :: next) r h c) as (Hc & Hpd1 & _).
    rewrite Hpd in Hc.
    destruct (check_fw_rec SEC CHK size (r :: next) r h c) as [h1 c1].
    cbn [fst snd] in Hbody, Hc, Hpd1.
    destruct (Z.eqb_spec c1 4) as [E|E]; cbn [fst].
    + split.
      * intros H0. destruct (p r); cbn [Z.b2z] in H0; [lia|exact Hbody].
      * intros r0 [->|Hin] Hr0; [rewrite Hr0 in Hbody; exact Hbody|].
        pose proof (total_hits_In size (version_addr pd) next r0 Hin).
        specialize (Hhit r0 Hr0). lia.
    + destruct (IH h1 c1) as [IHa IHb];
        [congruence | lia | destruct (p r); cbn [Z.b2z] in Hcnt; lia |].
      split.
      * intros H0. destruct (p r); cbn [Z.b2z] in H0; [lia|].
        rewrite IHa by lia. exact Hbody.
      * intros r0 [->|Hin] Hr0; [|apply IHb; assumption].
        rewrite Hr0 in Hbody, Hcnt. cbn [Z.b2z] in Hcnt.
        rewrite IHa by lia. exact Hbody.
Qed.

Lemma issp_check_fw_host h :
  snd (issp_check_fw SEC CHK h)
  = fst (check_fw_loop SEC CHK
           (CInt.mul (block_size (pdata h)) (blocks (pdata h)))
           (fw h) h 0).
Proof.
  unfold issp_check_fw.
  destruct (check_fw_loop SEC CHK _ (fw h) h 0) as [h1 c1].
  destruct (c1 <? 4); reflexivity.
Qed.

(** The loop's version test is the span test without the record's first
    address. *)
Lemma hit_version_spec va r :
  hit_version va r = true <->
  CInt.int (addr r) < va < CInt.add (CInt.int (addr r)) (len r).
Proof.
  unfold hit_version. rewrite andb_true_iff, Z.gtb_ltb, !Z.ltb_lt.
  reflexivity.
Qed.

Lemma hit_version_in_span va r :
  CInt.int (addr r) <> va ->
  (hit_version va r = true <-> in_span va r).
Proof.
  intros Hne. rewrite hit_version_spec. unfold in_span. lia.
Qed.

(** Inside a record the stored checksum is the big-endian value of its
    first two data bytes. *)
Lemma checksum_of_bytes r :
  binrec_wf r -> 2 <= len r ->
  exists b0 b1,
    nth_error (data r) 0 = Some b0 /\ nth_error (data r) 1 = Some b1 /\
    checksum_of r = 256 * byte_val b0 + byte_val b1.
Proof.
  unfold binrec_wf, checksum_of, rec_data. intros Hwf Hlen.
  destruct (data r) as [|b0 [|b1 l]]; cbn [length] in Hwf; try lia.
  exists b0, b1. repeat split.
  cbn. apply be16_value; apply byte_val_range.
Qed.

(** Inside the span of a record the stored version is the data byte at
    the distance of the version address from the record's address. *)
Lemma version_of_byte va r :
  binrec_wf r -> len r <= 65535 -> in_span va r ->
  exists b,
    nth_error (data r) (Z.to_nat (va - CInt.int (addr r))) = Some b /\
    version_of va r = byte_val b.
Proof.
  unfold binrec_wf, version_of, in_span. intros Hwf Hlen [Hlo Hhi].
  pose proof (int_range (addr r)) as Ha.
  destruct (int_add_len (CInt.int (addr r)) (len r) Ha ltac:(lia)) as [E|E];
    rewrite E in Hhi; [|lia].
  unfold CInt.sub. rewrite (int_small (va - CInt.int (addr r))) by lia.
  unfold rec_data.
  replace (va - CInt.int (addr r) <? 0) with false
    by (symmetry; apply Z.ltb_ge; lia).
  exists (nth (Z.to_nat (va - CInt.int (addr r))) (data r) x00).
  split; [|reflexivity].
  apply nth_error_nth'. lia.
Qed.

(** C1 (amended): for an image in which each of the four conditions is
    met by at most one record and no record starts exactly at the version
    address, [issp_check_fw] returns 0 exactly when all four facts are
    established (a record ending at block_size * blocks, a record at the
    security address, a record at the checksum address, a record whose
    span contains the version address) and -EINVAL otherwise; on success
    the stored checksum is the big-endian value of the first two data
    bytes of the checksum record and the stored version is the data byte
    at offset version_addr - address of the record containing it. *)
Theorem issp_check_fw_markers (h : issp_host) :
  let size := CInt.mul (block_size (pdata h)) (blocks (pdata h)) in
  let va := version_addr (pdata h) in
  count (hit_size size) (fw h) <= 1 ->
  count (hit_security SEC) (fw h) <= 1 ->
  count (hit_checksum CHK) (fw h) <= 1 ->
  count (hit_version va) (fw h) <= 1 ->
  (forall r, In r (fw h) -> CInt.int (addr r) <> va) ->
  (fst (issp_check_fw SEC CHK h) = 0 <->
   (exists r, In r (fw h) /\
              CInt.add (CInt.int (addr r)) (len r) = size) /\
   (exists r, In r (fw h) /\ CInt.int (addr r) = SEC) /\
   (exists r, In r (fw h) /\ CInt.int (addr r) = CHK) /\
   (exists r, In r (fw h) /\ in_span va r)) /\
  (fst (issp_check_fw SEC CHK h) <> 0 ->
   fst (issp_check_fw SEC CHK h) = - EINVAL) /\
  (fst (issp_check_fw SEC CHK h) = 0 ->
   (forall r, In r (fw h) -> CInt.int (addr r) = CHK ->
              binrec_wf r -> 2 <= len r ->
      exists b0 b1,
        nth_error (data r) 0 = Some b0 /\
        nth_error (data r) 1 = Some b1 /\
        checksum_fw (snd (issp_check_fw SEC CHK h))
        = 256 * byte_val b0 + byte_val b1) /\
   (forall r, In r (fw h) -> in_span va r ->
              binrec_wf r -> len r <= 65535 ->
      exists b,
        nth_error (data r) (Z.to_nat (va - CInt.int (addr r))) = Some b /\
        version_fw (snd (issp_check_fw SEC CHK h)) = byte_val b)).
Proof.
  intros size va Hsz Hsec Hchk Hver Hstart.
  destruct (issp_check_fw_ret h) as [Hret Herr]. fold size va in Hret.
  rewrite total_hits_counts in Hret.
  pose proof (count_nonneg (hit_size size) (fw h)).
  pose proof (count_nonneg (hit_security SEC) (fw h)).
  pose proof (count_nonneg (hit_checksum CHK) (fw h)).
  pose proof (count_nonneg (hit_version va) (fw h)).
  assert (Hex : forall (p : ihex_binrec -> bool) (P : ihex_binrec -> Prop),
             (forall r, In r (fw h) -> (p r = true <-> P r)) ->
             (1 <= count p (fw h) <-> exists r, In r (fw h) /\ P r)).
  { intros p P HpP. rewrite count_pos.
    split; intros (r & Hin & Hr); exists r; split; auto;
      apply (HpP r Hin); exact Hr. }
  pose proof (Hex (hit_size size) _
                (fun r _ => Z.eqb_eq _ size)) as Esz.
  pose proof (Hex (hit_security SEC) _
                (fun r _ => Z.eqb_eq _ SEC)) as Esec.
  pose proof (Hex (hit_checksum CHK) _
                (fun r _ => Z.eqb_eq _ CHK)) as Echk.
  pose proof (Hex (hit_version va) (in_span va)
                (fun r Hin => hit_version_in_span va r (Hstart r Hin)))
    as Ever.
  cbv beta in Esz, Esec, Echk.
  split; [|split; [exact Herr|]].
  - rewrite Hret, <- Esz, <- Esec, <- Echk, <- Ever. lia.
  - intros Hok. apply Hret in Hok.
    assert (Hfour : 0 + total_hits SEC CHK size va (fw h) = 4)
      by (rewrite total_hits_counts; lia).
    rewrite issp_check_fw_host. fold size.
    split.
    + intros r Hin Haddr Hwf Hlen.
      destruct (checksum_of_bytes r Hwf Hlen) as (b0 & b1 & Hb0 & Hb1 & Hv).
      exists b0, b1. repeat split; try assumption.
      rewrite <- Hv.
      apply (check_fw_loop_field checksum_fw (hit_checksum CHK)
               checksum_of (pdata h) size); auto.
      * intros rec r' h' c' Hpd.
        destruct (check_fw_rec_spec size rec r' h' c')
          as (_ & _ & _ & Hc & _).
        exact Hc.
      * intros r' Hr'. unfold hits. rewrite Hr'.
        destruct (hit_size size r'), (hit_security SEC r'),
          (hit_version (version_addr (pdata h)) r'); cbn; lia.
      * apply Z.eqb_eq. exact Haddr.
    + intros r Hin Hspan Hwf Hlen.
      destruct (version_of_byte va r Hwf Hlen Hspan) as (b & Hb & Hv).
      exists b. split; [assumption|].
      rewrite <- Hv.
      apply (check_fw_loop_field version_fw (hit_version va)
               (version_of va) (pdata h) size); auto.
      * intros rec r' h' c' Hpd.
        destruct (check_fw_rec_spec size rec r' h' c')
          as (_ & _ & _ & _ & Hc).
        rewrite Hpd in Hc. exact Hc.
      * intros r' Hr'. unfold hits. fold va. rewrite Hr'.
        destruct (hit_size size r'), (hit_security SEC r'),
          (hit_checksum CHK r'); cbn; lia.
      * apply hit_version_in_span; auto.
Qed.

End CheckFwProperties.

Lemma issp_check_fw_markers_witness :
  fst (issp_check_fw SECURITY_ADDR CHECKSUM_ADDR sample_host) = 0 /\
  checksum_fw (snd (issp_check_fw SECURITY_ADDR CHECKSUM_ADDR sample_host))
  = 0x1234 /\
  version_fw (snd (issp_check_fw SECURITY_ADDR CHECKSUM_ADDR sample_host))
  = 0x06.
Proof.
  destruct (issp_check_fw_markers SECURITY_ADDR CHECKSUM_ADDR sample_host)
    as (Hiff & _ & Hval).
  - vm_compute. intros H. discriminate H.
  - vm_compute. intros H. discriminate H.
  - vm_compute. intros H. discriminate H.
  - vm_compute. intros H. discriminate H.
  - intros r Hin. simpl in Hin.
    destruct Hin as [<-|[<-|[<-|[<-|[]]]]]; vm_compute; intros H;
      discriminate H.
  - assert (Hok : fst (issp_check_fw SECURITY_ADDR CHECKSUM_ADDR sample_host)
                  = 0).
    { apply Hiff. repeat split.
      - exists (mk_binrec 4 4 [x05; x06; x07; x08]).
        split; [simpl; auto | reflexivity].
      - exists (mk_binrec SECURITY_ADDR 2 [xaa; xbb]).
        split; [simpl; auto | reflexivity].
      - exists (mk_binrec CHECKSUM_ADDR 2 [x12; x34]).
        split; [simpl; auto | reflexivity].
      - exists (mk_binrec 4 4 [x05; x06; x07; x08]).
        split; [simpl; auto |].
        split; vm_compute; [intros H; discriminate H | reflexivity]. }
    destruct (Hval Hok) as [Hc Hv].
    split; [exact Hok|]. split.
    + destruct (Hc (mk_binrec CHECKSUM_ADDR 2 [x12; x34]))
        as (b0 & b1 & E0 & E1 & E);
        [simpl; auto | reflexivity | reflexivity | simpl; lia |].
      simpl in E0, E1. injection E0 as <-. injection E1 as <-.
      rewrite E. reflexivity.
    + destruct (Hv (mk_binrec 4 4 [x05; x06; x07; x08]))
        as (b & E0 & E);
        [simpl; auto
        | split; vm_compute; [intros H; discriminate H | reflexivity]
        | reflexivity | simpl; lia |].
      vm_compute in E0. injection E0 as <-.
      rewrite E. reflexivity.
Defined.

(** C1, as stated, fails: with the security record stored twice the counter
    reaches four although no record contains the version address, and
    [issp_check_fw] returns 0. *)
Lemma issp_check_fw_duplicate_marker :
  fst (issp_check_fw SECURITY_ADDR CHECKSUM_ADDR dup_host) = 0 /\
  ~ (exists r, In r (fw dup_host) /\
               in_span (version_addr (pdata dup_host)) r).
Proof.
  split; [reflexivity|].
  intros (r & Hin & Hlo & Hhi). simpl in Hin.
  destruct Hin as [<-|[<-|[<-|[<-|[]]]]]; vm_compute in Hlo, Hhi;
    first [apply Hlo; reflexivity | discriminate Hhi].
Qed.

(** C4, at a record that starts at the version address: the span of the
    second data record contains the version address, yet the loop's version
    test is false for it, the scan ends with three conditions confirmed,
    [issp_check_fw] returns -EINVAL and the stored version is still the
    zero of the fresh host, not the record's first data byte 0x05. *)
Theorem issp_check_fw_version_at_record_start :
  in_span (version_addr start_pdata) (mk_binrec 4 4 [x05; x06; x07; x08]) /\
  hit_version (version_addr start_pdata)
              (mk_binrec 4 4 [x05; x06; x07; x08]) = false /\
  snd (check_fw_loop SECURITY_ADDR CHECKSUM_ADDR 8 (fw start_host)
                     start_host 0) = 3 /\
  fst (issp_check_fw SECURITY_ADDR CHECKSUM_ADDR start_host) = - EINVAL /\
  version_fw (snd (issp_check_fw SECURITY_ADDR CHECKSUM_ADDR start_host)) = 0.
Proof.
  repeat split.
  vm_compute. intros H. discriminate H.
Qed.

(** The same for every record and every configuration: a record is never
    accepted for a version address equal to its own address. *)
Lemma hit_version_record_start (r : ihex_binrec) :
  hit_version (CInt.int (addr r)) r = false.
Proof.
  unfold hit_version.
  replace (CInt.int (addr r) >? CInt.int (addr r)) with false
    by (symmetry; rewrite Z.gtb_ltb; apply Z.ltb_irrefl).
  reflexivity.
Qed.

(** ** The attach sequence *)

Lemma left_running_after pd pre k :
  ~ In release_firmware pre ->
  left_running pd (snd k) -> left_running pd (snd (after pre k)).
Proof.
  intros Hpre (pre' & Heq & Hno). exists (pre ++ pre').
  cbn [after snd]. rewrite Heq, app_assoc. split; [reflexivity|].
  rewrite in_app_iff. tauto.
Qed.

Lemma released_without_run_after pd pre k :
  ~ In release_firmware pre -> ~ In issp_uc_run pre ->
  released_without_run pd (snd k) ->
  released_without_run pd (snd (after pre k)).
Proof.
  intros Hpre Hrun [(pre' & Heq & Hno) Hnorun]. split.
  - exists (pre ++ pre').
    cbn [after snd]. rewrite Heq, app_assoc. split; [reflexivity|].
    rewrite in_app_iff. tauto.
  - cbn [after snd]. rewrite in_app_iff. tauto.
Qed.

Lemma not_programmed_after pre k :
  ~ In issp_program pre -> ~ In issp_program (snd k) ->
  ~ In issp_program (snd (after pre k)).
Proof.
  intros Hpre Hk. cbn [after snd]. rewrite in_app_iff. tauto.
Qed.

(** Membership of a call in an explicit list of other calls. *)
Ltac absent := cbn [In app]; intuition discriminate.

Section ProbeProperties.

Variable SEC : Z.
Variable CHK : Z.
Variable env : probe_env.

Lemma probe_err_id_left_running pd :
  left_running pd (snd (probe_err_id pd)).
Proof.
  exists []. split; [reflexivity | absent].
Qed.

Lemma probe_err_released pd : released_without_run pd (snd (probe_err pd)).
Proof.
  split; [exists []; split; [reflexivity | absent] | cbn; absent].
Qed.

Lemma create_file_calls attr c :
  In c (create_file env attr) ->
  c = device_create_file attr \/
  c = dev_err "ISSP sysfs node create failed".
Proof.
  unfold create_file.
  destruct (env_create_file env attr =? 0); cbn [In]; intuition.
Qed.

(** The calls from [mutex_init] to the allocation of the wake lock. *)
Lemma probe_setup_head_calls c :
  In c ([mutex_init] ++ create_file env "issp_reset"
          ++ create_file env "issp_usbreset" ++ create_file env "issp_data"
          ++ create_file env "issp_clk" ++ [devm_kzalloc_wake_lock]) ->
  c <> release_firmware /\ c <> issp_uc_run /\ c <> issp_program.
Proof.
  rewrite !in_app_iff. cbn [In].
  intros [[<-|[]]|[H|[H|[H|[H|[<-|[]]]]]]];
    try (apply create_file_calls in H; destruct H as [-> | ->]);
    repeat split; discriminate.
Qed.

(** Once the update step is over, a run in which the wake lock and the
    work queue can be set up ends at the label [err_id]. *)
Lemma probe_setup_ok pd :
  env_kzalloc_wake_lock_ok env = true ->
  env_create_workqueue_ok env = true ->
  fst (probe_setup env pd) = 0 /\
  left_running pd (snd (probe_setup env pd)) /\
  ~ In issp_program (snd (probe_setup env pd)).
Proof.
  intros Hwl Hwq. unfold probe_setup. rewrite Hwl, Hwq. cbn [negb].
  repeat split.
  - apply left_running_after.
    + intros Hin. apply probe_setup_head_calls in Hin. tauto.
    + apply left_running_after; [absent|].
      apply left_running_after; [absent|].
      apply probe_err_id_left_running.
  - apply not_programmed_after.
    + intros Hin. apply probe_setup_head_calls in Hin. tauto.
    + cbn; absent.
Qed.

(** A run that reaches [issp_check_fw] consists of the prologue followed
    by what the code does from that call on. *)
Lemma issp_probe_reached pd :
  probe_reaches_check_fw env pd ->
  issp_probe SEC CHK env
  = after (probe_prologue pd)
          (probe_firmware SEC CHK env pd
             (fresh_host pd (env_firmware env))).
Proof.
  intros (Hpd & Hv1 & Hv2 & Hv3 & Hr1 & Hr2 & Hr3 & Hk & Hf).
  unfold issp_probe, probe_gpio_requests.
  rewrite Hpd, Hv1, Hv2, Hv3, Hr1, Hr2, Hr3, Hk, Hf.
  cbn [negb orb Z.eqb after fst snd app].
  destruct (probe_firmware SEC CHK env pd
              (fresh_host pd (env_firmware env))) as [ret tr].
  reflexivity.
Qed.

Lemma probe_prologue_calls pd c :
  In c (probe_prologue pd) ->
  c <> release_firmware /\ c <> issp_uc_run /\ c <> issp_program.
Proof.
  unfold probe_prologue. cbn [In].
  intros H; repeat destruct H as [<-|H]; try contradiction;
    repeat split; discriminate.
Qed.

(** The image is rejected: the code goes to the label [err]. *)
Lemma probe_firmware_invalid pd :
  ~ probe_fw_valid SEC CHK env pd ->
  probe_firmware SEC CHK env pd (fresh_host pd (env_firmware env))
  = after [dev_err "Firmware %s invalid!"] (probe_err pd).
Proof.
  unfold probe_fw_valid, probe_firmware. intros Hinv.
  destruct (issp_check_fw SEC CHK (fresh_host pd (env_firmware env)))
    as [ret h]. cbn [fst] in Hinv.
  destruct (Z.eqb_spec ret 0); [contradiction|reflexivity].
Qed.

(** The image is accepted: the programmer makes first contact and the
    identity is compared. *)
Lemma probe_firmware_valid pd :
  probe_fw_valid SEC CHK env pd ->
  probe_firmware SEC CHK env pd (fresh_host pd (env_firmware env))
  = after [issp_uc_program]
      (if si_id_mismatch (probe_host SEC CHK env pd) pd
       then after [dev_err "Sillicon ID check failed!"] (probe_err_id pd)
       else probe_update env pd (probe_host SEC CHK env pd)).
Proof.
  unfold probe_fw_valid, probe_firmware, probe_host. intros Hval.
  destruct (issp_check_fw SEC CHK (fresh_host pd (env_firmware env)))
    as [ret h]. cbn [fst snd] in *.
  rewrite Hval. reflexivity.
Qed.

(** Any answer of the block read other than 1 and -EACCES is handed
    back as it is, and [*update] is left as it was. *)
Lemma issp_need_update_other read host update ret ver_uc :
  read host (version_block host) (version_offset host) 1 = (ret, ver_uc) ->
  ret <> 1 -> ret <> - EACCES ->
  issp_need_update read host update
  = (ret, update,
     [issp_read_block (version_block host) (version_offset host) 1]).
Proof.
  intros Hread H1 Hacc. unfold issp_need_update.
  fold (version_block host). fold (version_offset host). rewrite Hread.
  destruct (Z.eqb_spec ret (- EACCES)); [contradiction|].
  destruct (Z.eqb_spec ret 1); [contradiction|].
  reflexivity.
Qed.

Lemma issp_need_update_calls read host update c :
  In c (snd (issp_need_update read host update)) ->
  c <> release_firmware /\ c <> issp_uc_run /\ c <> issp_program.
Proof.
  unfold issp_need_update.
  destruct (read host _ _ 1) as [ret ver].
  destruct (ret =? - EACCES); [|destruct (ret =? 1)]; cbn [snd In];
    intros H; repeat destruct H as [<-|H]; try contradiction;
    repeat split; try discriminate;
    destruct ((byte_val ver <? version_fw host)
              || negb (byte_val ver =? version_fw host)
                 && force_update (pdata host)); discriminate.
Qed.

(** The decision returned an error: the rest of the attach is skipped. *)
Lemma probe_update_error pd host :
  fst (fst (issp_need_update (env_read_block env) host
              (env_update_initial env))) <> 0 ->
  probe_update env pd host
  = after (snd (issp_need_update (env_read_block env) host
                  (env_update_initial env)))
          (probe_err_id pd).
Proof.
  unfold probe_update. intros Hret.
  destruct (issp_need_update (env_read_block env) host
              (env_update_initial env)) as [[ret update] calls].
  cbn [fst snd] in *.
  destruct (Z.eqb_spec ret 0); [contradiction|reflexivity].
Qed.

(** The decision was made: programming runs when it is true, and the
    set-up of the reset paths follows in either case. *)
Lemma probe_update_decided pd host :
  fst (fst (issp_need_update (env_read_block env) host
              (env_update_initial env))) = 0 ->
  exists calls,
    probe_update env pd host = after calls (probe_setup env pd) /\
    ~ In release_firmware calls.
Proof.
  unfold probe_update. intros Hret.
  pose proof (issp_need_update_calls (env_read_block env) host
                (env_update_initial env)) as Hcalls.
  destruct (issp_need_update (env_read_block env) host
              (env_update_initial env)) as [[ret update] calls].
  cbn [fst snd] in *. subst ret. cbn [Z.eqb negb].
  destruct update.
  - exists (calls ++
            [issp_program;
             if env_program env host =? 0
             then dev_info "Firmware update successfully!"
             else dev_err "Firmware update failed!"]).
    split.
    + unfold after. cbn [fst snd]. rewrite <- app_assoc. reflexivity.
    + rewrite in_app_iff. intros [Hin|Hin].
      * apply Hcalls in Hin. tauto.
      * destruct (env_program env host =? 0); revert Hin; absent.
  - exists calls. split; [reflexivity|].
    intros Hin. apply Hcalls in Hin. tauto.
Qed.

(** An identity mismatch: the whole run, and its return value 0. *)
Lemma issp_probe_id_mismatch pd :
  probe_reaches_check_fw env pd ->
  probe_fw_valid SEC CHK env pd ->
  si_id_mismatch (probe_host SEC CHK env pd) pd = true ->
  issp_probe SEC CHK env
  = (0, probe_prologue pd ++
        [issp_uc_program; dev_err "Sillicon ID check failed!";
         issp_uc_run;
         gpio_direction_input (data_gpio pd);
         gpio_direction_input (clk_gpio pd);
         release_firmware]).
Proof.
  intros Hreach Hval Hmis.
  rewrite (issp_probe_reached pd Hreach), (probe_firmware_valid pd Hval).
  rewrite Hmis. reflexivity.
Qed.

(** An error of the update decision ends with the run step. *)
Lemma probe_decision_error pd :
  probe_reaches_check_fw env pd ->
  probe_fw_valid SEC CHK env pd ->
  si_id_mismatch (probe_host SEC CHK env pd) pd = false ->
  fst (fst (issp_need_update (env_read_block env)
              (probe_host SEC CHK env pd) (env_update_initial env))) <> 0 ->
  left_running pd (snd (issp_probe SEC CHK env)).
Proof.
  intros Hreach Hval Hmis Hret.
  rewrite (issp_probe_reached pd Hreach), (probe_firmware_valid pd Hval).
  rewrite Hmis.
  apply left_running_after;
    [intros Hin; apply probe_prologue_calls in Hin; tauto|].
  apply left_running_after; [absent|].
  rewrite (probe_update_error pd _ Hret).
  apply left_running_after.
  - intros Hin. apply issp_need_update_calls in Hin. tauto.
  - apply probe_err_id_left_running.
Qed.

(** C3 (amended): in an attach that gets as far as validating the image,
    an identity mismatch, an error of the update decision, and a decision
    followed by programming (whatever its result) or by no programming,
    when the wake lock and the work queue can then be set up, all end with
    the run step, the data and clock lines switched to input and only
    then the release of the image; a rejected image ends with the lines
    switched to input and the image released, without a run step. *)
Theorem issp_probe_cleanup (pd : issp_platform_data) :
  probe_reaches_check_fw env pd ->
  let tr := snd (issp_probe SEC CHK env) in
  let host := probe_host SEC CHK env pd in
  let decision :=
    issp_need_update (env_read_block env) host (env_update_initial env) in
  (~ probe_fw_valid SEC CHK env pd -> released_without_run pd tr) /\
  (probe_fw_valid SEC CHK env pd ->
   si_id_mismatch host pd = true -> left_running pd tr) /\
  (probe_fw_valid SEC CHK env pd ->
   si_id_mismatch host pd = false ->
   fst (fst decision) <> 0 -> left_running pd tr) /\
  (probe_fw_valid SEC CHK env pd ->
   si_id_mismatch host pd = false ->
   fst (fst decision) = 0 ->
   env_kzalloc_wake_lock_ok env = true ->
   env_create_workqueue_ok env = true ->
   left_running pd tr).
Proof.
  intros Hreach tr host decision. subst tr.
  rewrite (issp_probe_reached pd Hreach).
  assert (Hpro : ~ In release_firmware (probe_prologue pd))
    by (intros Hin; apply probe_prologue_calls in Hin; tauto).
  assert (Hpro' : ~ In issp_uc_run (probe_prologue pd))
    by (intros Hin; apply probe_prologue_calls in Hin; tauto).
  split; [|split; [|split]].
  - intros Hinv. rewrite (probe_firmware_invalid pd Hinv).
    apply released_without_run_after; [assumption|assumption|].
    apply released_without_run_after; [absent|absent|].
    apply probe_err_released.
  - intros Hval Hmis. rewrite (probe_firmware_valid pd Hval).
    fold host. rewrite Hmis.
    apply left_running_after; [assumption|].
    apply left_running_after; [absent|].
    apply left_running_after; [absent|].
    apply probe_err_id_left_running.
  - intros Hval Hmis Hret.
    rewrite <- (issp_probe_reached pd Hreach).
    apply probe_decision_error; assumption.
  - intros Hval Hmis Hret Hwl Hwq. rewrite (probe_firmware_valid pd Hval).
    fold host. rewrite Hmis.
    apply left_running_after; [assumption|].
    apply left_running_after; [absent|].
    destruct (probe_update_decided pd host Hret) as (calls & -> & Hno).
    apply left_running_after; [assumption|].
    apply probe_setup_ok; assumption.
Qed.

(** C5 (amended): an answer of the block read other than 1 and -EACCES
    is returned by [issp_need_update] unchanged, with [*update] left as
    it was; when that answer is not 0 the attach makes no programming
    call and ends with the run step, the lines switched to input and the
    release of the image. *)
Theorem issp_need_update_read_failure
        (pd : issp_platform_data) (ret : Z) (ver_uc : byte) :
  let host := probe_host SEC CHK env pd in
  probe_reaches_check_fw env pd ->
  probe_fw_valid SEC CHK env pd ->
  si_id_mismatch host pd = false ->
  env_read_block env host (version_block host) (version_offset host) 1
  = (ret, ver_uc) ->
  ret <> 1 -> ret <> - EACCES ->
  issp_need_update (env_read_block env) host (env_update_initial env)
  = (ret, env_update_initial env,
     [issp_read_block (version_block host) (version_offset host) 1]) /\
  (ret <> 0 ->
   ~ In issp_program (snd (issp_probe SEC CHK env)) /\
   left_running pd (snd (issp_probe SEC CHK env))).
Proof.
  intros host Hreach Hval Hmis Hread H1 Hacc.
  pose proof (issp_need_update_other (env_read_block env) host
                (env_update_initial env) ret ver_uc Hread H1 Hacc) as Hnu.
  split; [exact Hnu|]. intros H0.
  assert (Hret : fst (fst (issp_need_update (env_read_block env) host
                             (env_update_initial env))) <> 0)
    by (rewrite Hnu; exact H0).
  split.
  - rewrite (issp_probe_reached pd Hreach), (probe_firmware_valid pd Hval).
    fold host. rewrite Hmis, (probe_update_error pd host Hret), Hnu.
    apply not_programmed_after.
    + intros Hin. apply probe_prologue_calls in Hin. tauto.
    + cbn. absent.
  - apply probe_decision_error; assumption.
Qed.

End ProbeProperties.

Lemma issp_probe_cleanup_witness :
  released_without_run sample_pdata
    (snd (issp_probe SECURITY_ADDR CHECKSUM_ADDR invalid_env)) /\
  left_running sample_pdata
    (snd (issp_probe SECURITY_ADDR CHECKSUM_ADDR mismatch_env)) /\
  left_running sample_pdata
    (snd (issp_probe SECURITY_ADDR CHECKSUM_ADDR failed_read_env)) /\
  left_running sample_pdata
    (snd (issp_probe SECURITY_ADDR CHECKSUM_ADDR outdated_env)).
Proof.
  split; [|split; [|split]].
  - destruct (issp_probe_cleanup SECURITY_ADDR CHECKSUM_ADDR invalid_env
                sample_pdata) as (H & _); [repeat split|].
    apply H. vm_compute. intros E. discriminate E.
  - destruct (issp_probe_cleanup SECURITY_ADDR CHECKSUM_ADDR mismatch_env
                sample_pdata) as (_ & H & _); [repeat split|].
    apply H; reflexivity.
  - destruct (issp_probe_cleanup SECURITY_ADDR CHECKSUM_ADDR failed_read_env
                sample_pdata) as (_ & _ & H & _); [repeat split|].
    apply H; try reflexivity. vm_compute. intros E. discriminate E.
  - destruct (issp_probe_cleanup SECURITY_ADDR CHECKSUM_ADDR outdated_env
                sample_pdata) as (_ & _ & _ & H); [repeat split|].
    apply H; reflexivity.
Defined.

(** C3, as stated, fails on the invalid-image path: the attach reaches the
    validation, the image is rejected, and the run contains no run step. *)
Lemma issp_probe_invalid_image_no_run :
  probe_reaches_check_fw invalid_env sample_pdata /\
  ~ probe_fw_valid SECURITY_ADDR CHECKSUM_ADDR invalid_env sample_pdata /\
  ~ In issp_uc_run (snd (issp_probe SECURITY_ADDR CHECKSUM_ADDR invalid_env)).
Proof.
  split; [repeat split|]. split.
  - vm_compute. intros E. discriminate E.
  - cbn. absent.
Qed.

Lemma issp_need_update_read_failure_witness :
  issp_need_update
    (env_read_block failed_read_env)
    (probe_host SECURITY_ADDR CHECKSUM_ADDR failed_read_env sample_pdata)
    (env_update_initial failed_read_env)
  = (-5, true,
     [issp_read_block
        (version_block
           (probe_host SECURITY_ADDR CHECKSUM_ADDR failed_read_env
              sample_pdata))
        (version_offset
           (probe_host SECURITY_ADDR CHECKSUM_ADDR failed_read_env
              sample_pdata)) 1]) /\
  (-5 <> 0 ->
   ~ In issp_program
        (snd (issp_probe SECURITY_ADDR CHECKSUM_ADDR failed_read_env)) /\
   left_running sample_pdata
     (snd (issp_probe SECURITY_ADDR CHECKSUM_ADDR failed_read_env))).
Proof.
  apply (issp_need_update_read_failure SECURITY_ADDR CHECKSUM_ADDR
           failed_read_env sample_pdata (-5) x00).
  - repeat split.
  - reflexivity.
  - reflexivity.
  - reflexivity.
  - intros E. discriminate E.
  - intros E. discriminate E.
Defined.

(** C5, as stated, fails for the answer 0 of the block read: it is neither
    a one-byte read nor the protected-block error, yet [issp_need_update]
    returns 0, which the attach takes for success, and with [update]
    starting as true the attach goes on to program. *)
Lemma issp_need_update_zero_read :
  env_read_block zero_read_env
    (probe_host SECURITY_ADDR CHECKSUM_ADDR zero_read_env sample_pdata)
    (version_block
       (probe_host SECURITY_ADDR CHECKSUM_ADDR zero_read_env sample_pdata))
    (version_offset
       (probe_host SECURITY_ADDR CHECKSUM_ADDR zero_read_env sample_pdata)) 1
  = (0, x00) /\
  fst (fst (issp_need_update
              (env_read_block zero_read_env)
              (probe_host SECURITY_ADDR CHECKSUM_ADDR zero_read_env
                 sample_pdata)
              (env_update_initial zero_read_env))) = 0 /\
  In issp_program (snd (issp_probe SECURITY_ADDR CHECKSUM_ADDR zero_read_env)).
Proof.
  split; [reflexivity|]. split; [reflexivity|].
  cbn. tauto.
Qed.

(** C6, at an identity whose last byte differs from the expected one: the
    attach logs the failed check, performs the run step, switches the data
    and clock lines to input and releases the image, and then returns 0,
    the value of a successful attach. *)
Theorem issp_probe_id_mismatch_returns_success :
  si_id_mismatch
    (probe_host SECURITY_ADDR CHECKSUM_ADDR mismatch_env sample_pdata)
    sample_pdata = true /\
  issp_probe SECURITY_ADDR CHECKSUM_ADDR mismatch_env
  = (0, [devm_gpio_request 10; devm_gpio_request 11; devm_gpio_request 12;
         gpio_direction_output 10 0; gpio_direction_input 11;
         gpio_direction_output 12 0;
         devm_kzalloc_host; request_ihex_firmware;
         issp_uc_program; dev_err "Sillicon ID check failed!";
         issp_uc_run; gpio_direction_input 11; gpio_direction_input 12;
         release_firmware]).
Proof.
  split; reflexivity.
Qed.

(** ** The reset paths *)

(** C9 (amended): the manual pin reset performs exactly this sequence:
    acquire the guard, acquire the exclusive lock, toggle the controller
    reset, release the lock, release the guard, and then log.  Executed on
    its own from a free lock, the six calls run to the end and leave the
    lock free. *)
Theorem issp_reset_set_sequence :
  issp_reset_set
  = [wake_lock; mutex_lock; issp_uc_reset; mutex_unlock; wake_unlock;
     dev_info "issp: toggling reset pin on uC!"] /\
  run (mk_machine [issp_reset_set] None) (repeat 0%nat 6)
  = Some (mk_machine [[]] None).
Proof.
  split; reflexivity.
Qed.

(** C9, as stated, fails: the pin reset is not the bare sequence of lock,
    reset and unlock; it acquires and releases the guard around it. *)
Lemma issp_reset_set_takes_guard :
  issp_reset_set <> [mutex_lock; issp_uc_reset; mutex_unlock] /\
  In wake_lock issp_reset_set /\ In wake_unlock issp_reset_set.
Proof.
  split; [discriminate|]. cbn. tauto.
Qed.

(** C8 (amended): when the delayed work runs while the wake-lock pointer is
    NULL, it only logs: it makes no unload, reset or reload call, takes no
    lock and releases no guard. *)
Theorem issp_recovery_work_func_no_wake_lock (g : issp_globals) :
  g_issp_wake_lock g = None ->
  issp_recovery_work_func g
  = [dev_info "%s"; dev_err "%s: wake_lock null!!"] /\
  forall c, In c (issp_recovery_work_func g) ->
            reset_affecting c = false /\ c <> wake_unlock /\
            c <> mutex_lock.
Proof.
  intros Hg. unfold issp_recovery_work_func. rewrite Hg.
  split; [reflexivity|].
  intros c [<-|[<-|[]]]; repeat split; discriminate.
Qed.

Lemma issp_recovery_work_func_no_wake_lock_witness :
  issp_recovery_work_func no_wake_lock
  = [dev_info "%s"; dev_err "%s: wake_lock null!!"] /\
  forall c, In c (issp_recovery_work_func no_wake_lock) ->
            reset_affecting c = false /\ c <> wake_unlock /\
            c <> mutex_lock.
Proof.
  apply (issp_recovery_work_func_no_wake_lock no_wake_lock).
  reflexivity.
Defined.

(** C8, as stated, fails: with the lock object allocated but the guard not
    held, the delayed work still unloads, resets, reloads and releases the
    guard. *)
Lemma issp_recovery_work_func_guard_not_held :
  ~ guard_held attached /\
  In roth_usb_unload (issp_recovery_work_func attached) /\
  In issp_uc_reset (issp_recovery_work_func attached) /\
  In roth_usb_reload (issp_recovery_work_func attached) /\
  In wake_unlock (issp_recovery_work_func attached).
Proof.
  split; [intros H; discriminate H|].
  cbn. tauto.
Qed.

(** One way to get there: a manual pin reset between the scheduling of the
    recovery and its execution releases the guard that the scheduling
    acquired, and the delayed work then runs with the guard not held. *)
Lemma guard_released_before_recovery :
  guard_held (globals_after (issp_start_recovery_work attached) attached) /\
  reset_before_recovery = attached.
Proof.
  split; reflexivity.
Qed.

(** ** Mutual exclusion of the reset paths *)

Lemma suffixes_tail l c rest :
  In (c :: rest) (suffixes l) -> In rest (suffixes l).
Proof.
  induction l as [|x l IH]; cbn [suffixes In].
  - intros [H|[]]. discriminate H.
  - intros [H|H].
    + injection H as -> ->. right. destruct rest; left; reflexivity.
    + right. apply IH. exact H.
Qed.

Lemma thread_state_tail g c rest :
  thread_state g (c :: rest) -> thread_state g rest.
Proof.
  unfold thread_state. rewrite !in_flat_map.
  intros (body & Hbody & Hin). exists body. split; [assumption|].
  apply suffixes_tail with c. exact Hin.
Qed.

(** Every point of every path, one by one. *)
Ltac each_thread_state H :=
  unfold thread_state, reset_paths, issp_recovery_work_func in H;
  match type of H with
  | context [g_issp_wake_lock ?g] => destruct (g_issp_wake_lock g)
  end;
  cbn in H;
  repeat (destruct H as [H|H]; [try discriminate H|]);
  try contradiction.

(** After its [mutex_lock] a path is inside its critical section. *)
Lemma thread_state_locked g rest :
  thread_state g (mutex_lock :: rest) -> in_critical_section rest = true.
Proof.
  intros H. each_thread_state H; injection H as <-; reflexivity.
Qed.

(** After its [mutex_unlock] a path is outside of it. *)
Lemma thread_state_unlocked g rest :
  thread_state g (mutex_unlock :: rest) -> in_critical_section rest = false.
Proof.
  intros H. each_thread_state H; injection H as <-; reflexivity.
Qed.

(** Unload, reset and reload are called inside the critical section only. *)
Lemma thread_state_reset_affecting g c rest :
  thread_state g (c :: rest) -> reset_affecting c = true ->
  in_critical_section (c :: rest) = true.
Proof.
  intros H Hc.
  each_thread_state H; injection H as <- <-;
    first [reflexivity | discriminate Hc].
Qed.

Lemma thread_state_start g t :
  In t (reset_paths g) ->
  thread_state g t /\ in_critical_section t = false.
Proof.
  intros Hin. split.
  - unfold thread_state. rewrite in_flat_map. exists t.
    split; [assumption|]. destruct t; left; reflexivity.
  - unfold reset_paths, issp_recovery_work_func in Hin.
    destruct (g_issp_wake_lock g); cbn in Hin;
      repeat (destruct Hin as [<-|Hin]; [reflexivity|]); contradiction.
Qed.

Lemma in_critical_section_other c rest :
  is_call c mutex_lock = false -> is_call c mutex_unlock = false ->
  in_critical_section (c :: rest) = in_critical_section rest.
Proof.
  intros Hl Hu. unfold in_critical_section. cbn [existsb].
  rewrite Hl, Hu. reflexivity.
Qed.

Lemma is_call_true c d : is_call c d = true -> c = d.
Proof.
  unfold is_call. destruct (call_eq_dec c d); [auto|discriminate].
Qed.

Lemma nth_error_set_thread l i t j :
  nth_error (set_thread l i t) j
  = if Nat.eqb i j
    then match nth_error l j with Some _ => Some t | None => None end
    else nth_error l j.
Proof.
  revert i j. induction l as [|x l IH]; intros i j.
  - cbn. destruct (Nat.eqb i j), j; reflexivity.
  - destruct i, j; cbn; try reflexivity. apply IH.
Qed.

Lemma Forall_set_thread (P : list call -> Prop) l i t :
  Forall P l -> P t -> Forall P (set_thread l i t).
Proof.
  intros Hl Ht. revert i.
  induction Hl as [|x l Hx Hl IH]; intros i; [constructor|].
  destruct i; cbn; constructor; auto.
Qed.

Lemma lock_invariant_initial g m : initial g m -> lock_invariant g m.
Proof.
  intros [Hown Hall]. split.
  - eapply Forall_impl; [|exact Hall].
    intros t Ht. apply (thread_state_start g t Ht).
  - intros i t Hi. rewrite Hown.
    rewrite Forall_forall in Hall.
    destruct (thread_state_start g t) as [_ Hcs].
    { apply Hall. eapply nth_error_In. exact Hi. }
    rewrite Hcs. split; discriminate.
Qed.

Lemma lock_invariant_step g m i c m' :
  lock_invariant g m -> step m i = Some (c, m') -> lock_invariant g m'.
Proof.
  intros [Hts Hown] Hstep. unfold step in Hstep.
  destruct (nth_error (threads m) i) as [[|c0 rest]|] eqn:Hi;
    try discriminate Hstep.
  assert (Hst : thread_state g (c0 :: rest)).
  { rewrite Forall_forall in Hts. apply Hts.
    eapply nth_error_In. exact Hi. }
  pose proof (thread_state_tail g c0 rest Hst) as Hrest.
  pose proof (Hown i (c0 :: rest) Hi) as Hcs.
  destruct (is_call c0 mutex_lock) eqn:Hl;
    [|destruct (is_call c0 mutex_unlock) eqn:Hu].
  - (* the lock is taken *)
    apply is_call_true in Hl. subst c0.
    destruct (owner m) as [k|] eqn:Hk; [discriminate Hstep|].
    injection Hstep as <- <-. split; cbn [threads owner].
    + apply Forall_set_thread; assumption.
    + intros j t. rewrite nth_error_set_thread.
      destruct (Nat.eqb_spec i j) as [<-|Hne].
      * rewrite Hi. intros [= <-].
        rewrite (thread_state_locked g rest Hst). tauto.
      * intros Hj. specialize (Hown j t Hj).
        split; [intros Ht; apply Hown in Ht; discriminate Ht|].
        intros [= E]. contradiction.
  - (* the lock is released *)
    apply is_call_true in Hu. subst c0.
    destruct (owner m) as [k|] eqn:Hk; [|discriminate Hstep].
    destruct (Nat.eqb_spec i k) as [<-|Hne]; [|discriminate Hstep].
    injection Hstep as <- <-. split; cbn [threads owner].
    + apply Forall_set_thread; assumption.
    + intros j t. rewrite nth_error_set_thread.
      destruct (Nat.eqb_spec i j) as [<-|Hne].
      * rewrite Hi. intros [= <-].
        rewrite (thread_state_unlocked g rest Hst). split; discriminate.
      * intros Hj. specialize (Hown j t Hj).
        split; [|discriminate].
        intros Ht. apply Hown in Ht. injection Ht as E. contradiction.
  - (* any other call *)
    injection Hstep as <- <-. split; cbn [threads owner].
    + apply Forall_set_thread; assumption.
    + intros j t. rewrite nth_error_set_thread.
      destruct (Nat.eqb_spec i j) as [<-|Hne].
      * rewrite Hi. intros [= <-].
        rewrite <- (in_critical_section_other c0 rest Hl Hu). exact Hcs.
      * intros Hj. apply Hown. exact Hj.
Qed.

Lemma lock_invariant_run g sched :
  forall m m', lock_invariant g m -> run m sched = Some m' ->
               lock_invariant g m'.
Proof.
  induction sched as [|i sched IH]; intros m m' Hinv Hrun; cbn in Hrun.
  - injection Hrun as <-. exact Hinv.
  - destruct (step m i) as [[c m1]|] eqn:Hstep; [|discriminate Hrun].
    apply (IH m1 m'); [|exact Hrun].
    apply (lock_invariant_step g m i c m1); assumption.
Qed.

(** C7: however the manual pin reset, the manual full reset and the
    recovery are interleaved, at most one context is inside its critical
    section at any time, and a context that is about to unload the USB
    subsystem, reset the controller or reload the subsystem holds the
    exclusive lock while every other context is outside its critical
    section. *)
Theorem reset_paths_mutual_exclusion
        (g : issp_globals) (m m' : machine) (sched : list nat) :
  initial g m -> run m sched = Some m' ->
  (forall i j ti tj,
     nth_error (threads m') i = Some ti ->
     nth_error (threads m') j = Some tj ->
     in_critical_section ti = true -> in_critical_section tj = true ->
     i = j) /\
  (forall i c rest,
     nth_error (threads m') i = Some (c :: rest) ->
     reset_affecting c = true ->
     owner m' = Some i /\
     forall j tj, j <> i -> nth_error (threads m') j = Some tj ->
                  in_critical_section tj = false).
Proof.
  intros Hinit Hrun.
  destruct (lock_invariant_run g sched m m'
              (lock_invariant_initial g m Hinit) Hrun) as [Hts Hown].
  split.
  - intros i j ti tj Hi Hj Hci Hcj.
    apply (Hown i ti Hi) in Hci. apply (Hown j tj Hj) in Hcj.
    congruence.
  - intros i c rest Hi Hc.
    assert (Hst : thread_state g (c :: rest)).
    { rewrite Forall_forall in Hts. apply Hts.
      eapply nth_error_In. exact Hi. }
    pose proof (thread_state_reset_affecting g c rest Hst Hc) as Hcs.
    apply (Hown i _ Hi) in Hcs. split; [exact Hcs|].
    intros j tj Hne Hj.
    destruct (in_critical_section tj) eqn:Hcj; [|reflexivity].
    apply (Hown j tj Hj) in Hcj. congruence.
Qed.

Lemma reset_paths_mutual_exclusion_witness :
  initial attached three_contexts /\
  exists m',
    run three_contexts sample_schedule = Some m' /\
    owner m' = Some 2%nat /\
    forall j tj, j <> 2%nat -> nth_error (threads m') j = Some tj ->
                 in_critical_section tj = false.
Proof.
  assert (Hinit : initial attached three_contexts).
  { split; [reflexivity|].
    repeat (apply Forall_cons; [cbn; auto|]). apply Forall_nil. }
  split; [exact Hinit|].
  destruct (run three_contexts sample_schedule) as [m'|] eqn:Hrun;
    [|vm_compute in Hrun; discriminate Hrun].
  exists m'. split; [reflexivity|].
  destruct (reset_paths_mutual_exclusion attached three_contexts m'
              sample_schedule Hinit Hrun) as [_ H].
  vm_compute in Hrun. injection Hrun as <-.
  apply (H 2%nat issp_uc_reset
           [roth_usb_reload; mutex_unlock; msleep 500; wake_unlock]);
    reflexivity.
Defined.

(** The decision table of the update decision, with the embedded version in
    the host and the device version as the byte read. *)
Example issp_need_update_table :
  let decide (device : byte) (image : Z) (force : bool) :=
    snd (fst (issp_need_update
                (fun _ _ _ _ => (1, device))
                (set_version_fw
                   (fresh_host
                      (mk_pdata 10 11 12 "issp.hex" (fun _ => 0) 4 2 5 force)
                      sample_fw) image)
                false)) in
  decide x10 0x12 false = true /\
  decide x12 0x12 false = false /\
  decide x10 0x08 true = true /\
  decide x08 0x08 true = false.
Proof.
  repeat split.
Qed.

(** ** More on the sequential reader *)

(** Reading [a + b] bytes is reading [a] bytes and then [b] more. *)
Lemma issp_fw_get_bytes_add a :
  forall b h,
    issp_fw_get_bytes (a + b) h =
    match issp_fw_get_bytes a h with
    | None => None
    | Some (bs, h') =>
        match issp_fw_get_bytes b h' with
        | None => None
        | Some (bs', h'') => Some (bs ++ bs', h'')
        end
    end.
Proof.
  induction a as [|a IH]; intros b h.
  - cbn. destruct (issp_fw_get_bytes b h) as [[bs h']|]; reflexivity.
  - cbn [Nat.add issp_fw_get_bytes].
    destruct (issp_fw_get_byte h) as [[x h1]|]; [|reflexivity].
    rewrite IH.
    destruct (issp_fw_get_bytes a h1) as [[bs h2]|]; [|reflexivity].
    destruct (issp_fw_get_bytes b h2) as [[bs' h3]|]; reflexivity.
Qed.

Lemma issp_fw_get_bytes_length k :
  forall h bs h', issp_fw_get_bytes k h = Some (bs, h') -> length bs = k.
Proof.
  induction k as [|k IH]; intros h bs h' H; cbn in H.
  - injection H as <- _. reflexivity.
  - destruct (issp_fw_get_byte h) as [[x h1]|]; [|discriminate H].
    destruct (issp_fw_get_bytes k h1) as [[bs1 h2]|] eqn:E;
      [|discriminate H].
    injection H as <- _. cbn. f_equal. apply (IH h1 bs1 h2 E).
Qed.

Lemma issp_fw_get_bytes_null k h :
  cur_rec h = [] -> issp_fw_get_bytes (S k) h = None.
Proof.
  intros Hnull. cbn. unfold issp_fw_get_byte. rewrite Hnull. reflexivity.
Qed.

(** After a rewind, any number of calls up to the number of data bytes of
    the image succeeds and returns the first bytes of the record data in
    stream order. *)
Theorem issp_fw_get_bytes_prefix (host : issp_host) (k : nat) :
  stream_wf (fw host) ->
  (k <= Z.to_nat (stream_size (fw host)))%nat ->
  exists host',
    issp_fw_get_bytes k (issp_fw_rewind host)
    = Some (firstn k (stream_bytes (fw host)), host').
Proof.
  intros Hwf Hk.
  pose proof (issp_fw_get_bytes_from (fw host) host Hwf) as Hall.
  replace (Z.to_nat (stream_size (fw host)))
    with (k + (Z.to_nat (stream_size (fw host)) - k))%nat in Hall by lia.
  rewrite issp_fw_get_bytes_add in Hall. unfold issp_fw_rewind.
  destruct (issp_fw_get_bytes k (set_cursor host (fw host) 0))
    as [[bs h1]|] eqn:E1; [|discriminate Hall].
  destruct (issp_fw_get_bytes _ h1) as [[bs' h2]|]; [|discriminate Hall].
  injection Hall as Hbs _.
  exists h1. rewrite <- Hbs.
  pose proof (issp_fw_get_bytes_length k _ bs h1 E1) as Hlen.
  rewrite firstn_app, Hlen, Nat.sub_diag, firstn_O, app_nil_r.
  rewrite <- Hlen, firstn_all. reflexivity.
Qed.

Lemma issp_fw_get_bytes_prefix_witness :
  exists host',
    issp_fw_get_bytes 5 (issp_fw_rewind sample_host)
    = Some (firstn 5 (stream_bytes (fw sample_host)), host').
Proof.
  apply (issp_fw_get_bytes_prefix sample_host 5).
  - repeat (constructor; [split; [reflexivity | simpl; lia] |]).
    constructor.
  - cbn. lia.
Defined.

(** In an image that has records, one call more than the image has data
    bytes dereferences the [NULL] cursor that the last record left behind:
    after a rewind, every longer sequence of calls fails. *)
Theorem issp_fw_get_bytes_past_end (host : issp_host) (k : nat) :
  stream_wf (fw host) -> fw host <> [] ->
  (Z.to_nat (stream_size (fw host)) < k)%nat ->
  issp_fw_get_bytes k (issp_fw_rewind host) = None.
Proof.
  intros Hwf _ Hk.
  replace k with (Z.to_nat (stream_size (fw host))
                  + S (k - S (Z.to_nat (stream_size (fw host)))))%nat by lia.
  rewrite issp_fw_get_bytes_add. unfold issp_fw_rewind.
  rewrite (issp_fw_get_bytes_from (fw host) host Hwf).
  rewrite issp_fw_get_bytes_null; reflexivity.
Qed.

Lemma issp_fw_get_bytes_past_end_witness :
  issp_fw_get_bytes 13 (issp_fw_rewind sample_host) = None.
Proof.
  apply (issp_fw_get_bytes_past_end sample_host 13).
  - repeat (constructor; [split; [reflexivity | simpl; lia] |]).
    constructor.
  - discriminate.
  - cbn. lia.
Defined.

(** One call keeps the cursor inside the image. *)
Lemma issp_fw_get_byte_cursor h b h' :
  stream_wf (fw h) -> cursor_ok h ->
  issp_fw_get_byte h = Some (b, h') ->
  cursor_ok h' /\ fw h' = fw h.
Proof.
  intros Hwf [[pre Hpre] Hidx] Hget.
  destruct (cur_rec h) as [|r next] eqn:Hrec.
  - unfold issp_fw_get_byte in Hget. rewrite Hrec in Hget. discriminate Hget.
  - assert (Hsuf : stream_wf (r :: next)).
    { unfold stream_wf in Hwf |- *. rewrite Hpre in Hwf.
      apply Forall_app in Hwf. apply Hwf. }
    inversion Hsuf as [|r0 l0 [_ Hr] Hnext]; subst.
    rewrite (issp_fw_get_byte_step h r next Hrec Hidx) in Hget by lia.
    injection Hget as _ <-.
    destruct (Z.eqb_spec (cur_idx h + 1) (len r)) as [E|E].
    + split; [|reflexivity]. split.
      * exists (pre ++ [r]). cbn. rewrite <- app_assoc. exact Hpre.
      * cbn. destruct next as [|r' next']; [reflexivity|].
        inversion Hnext as [|r1 l1 [_ Hr'] _]; subst. lia.
    + split; [|reflexivity]. split.
      * exists pre. exact Hpre.
      * cbn. lia.
Qed.

Lemma issp_fw_get_bytes_cursor_ok k :
  forall h bs h',
    stream_wf (fw h) -> cursor_ok h ->
    issp_fw_get_bytes k h = Some (bs, h') ->
    cursor_ok h' /\ fw h' = fw h.
Proof.
  induction k as [|k IH]; intros h bs h' Hwf Hok H; cbn in H.
  - injection H as _ <-. split; [assumption|reflexivity].
  - destruct (issp_fw_get_byte h) as [[x h1]|] eqn:E1; [|discriminate H].
    destruct (issp_fw_get_bytes k h1) as [[bs1 h2]|] eqn:E2;
      [|discriminate H].
    injection H as _ <-.
    destruct (issp_fw_get_byte_cursor h x h1 Hwf Hok E1) as [Hok1 Hfw1].
    destruct (IH h1 bs1 h2) as [Hok2 Hfw2]; auto; [congruence|].
    split; [assumption|congruence].
Qed.

(** In an image that has records, after a rewind and any successful
    sequence of calls the cursor either designates a record of the image
    with an offset below that record's length, or it is [NULL]; it is
    [NULL] exactly when all data bytes of the image have been read.  The
    image itself is never changed. *)
Theorem issp_fw_get_bytes_cursor
        (host : issp_host) (k : nat) (bs : list byte) (host' : issp_host) :
  stream_wf (fw host) -> fw host <> [] ->
  issp_fw_get_bytes k (issp_fw_rewind host) = Some (bs, host') ->
  cursor_ok host' /\ fw host' = fw host /\
  (cur_rec host' = [] <-> k = Z.to_nat (stream_size (fw host))).
Proof.
  intros Hwf _ Hget.
  destruct (issp_fw_get_bytes_cursor_ok k (issp_fw_rewind host) bs host')
    as [Hok Hfw]; auto.
  { split; [exists []; reflexivity|].
    cbn. destruct (fw host) as [|r l]; [reflexivity|].
    inversion Hwf as [|r0 l0 [_ Hr] _]; subst. lia. }
  split; [exact Hok|]. split; [exact Hfw|].
  set (n := Z.to_nat (stream_size (fw host))).
  destruct (Nat.lt_trichotomy k n) as [Hlt|[Heq|Hgt]].
  - split; [|lia]. intros Hnull. exfalso.
    pose proof (issp_fw_get_bytes_from (fw host) host Hwf) as Hall.
    fold n in Hall.
    replace n with (k + S (n - S k))%nat in Hall by lia.
    rewrite issp_fw_get_bytes_add in Hall.
    unfold issp_fw_rewind in Hget. rewrite Hget in Hall.
    rewrite (issp_fw_get_bytes_null _ host' Hnull) in Hall.
    discriminate Hall.
  - split; [intros _; exact Heq|]. intros _.
    pose proof (issp_fw_get_bytes_from (fw host) host Hwf) as Hall.
    fold n in Hall. rewrite <- Heq in Hall.
    unfold issp_fw_rewind in Hget. rewrite Hget in Hall.
    injection Hall as _ ->. reflexivity.
  - exfalso. unfold issp_fw_rewind in Hget.
    replace k with (n + S (k - S n))%nat in Hget by lia.
    rewrite issp_fw_get_bytes_add in Hget. unfold n in Hget at 1.
    rewrite (issp_fw_get_bytes_from (fw host) host Hwf) in Hget.
    rewrite issp_fw_get_bytes_null in Hget by reflexivity.
    discriminate Hget.
Qed.

Lemma issp_fw_get_bytes_cursor_witness :
  cursor_ok (set_cursor sample_host (tl sample_fw) 1) /\
  fw (set_cursor sample_host (tl sample_fw) 1) = fw sample_host /\
  (cur_rec (set_cursor sample_host (tl sample_fw) 1) = [] <->
   5%nat = Z.to_nat (stream_size (fw sample_host))).
Proof.
  apply (issp_fw_get_bytes_cursor sample_host 5 [x01; x02; x03; x04; x05]
           (set_cursor sample_host (tl sample_fw) 1)).
  - repeat (constructor; [split; [reflexivity | simpl; lia] |]).
    constructor.
  - discriminate.
  - reflexivity.
Defined.

(** After [issp_fw_seek_security], as many calls as the security record
    has data bytes return exactly that record's data and leave the cursor
    at the start of the record that follows it. *)
Theorem issp_fw_seek_security_read
        (host : issp_host) (r : ihex_binrec) (next : binrec_ptr) :
  security_rec host = r :: next ->
  binrec_wf r -> 0 < len r <= 65535 ->
  issp_fw_get_bytes (length (data r)) (issp_fw_seek_security host)
  = Some (data r, set_cursor host next 0).
Proof.
  intros Hsec Hwf Hlen. unfold binrec_wf in Hwf.
  unfold issp_fw_seek_security. rewrite Hsec.
  replace (length (data r)) with (S (pred (length (data r))) + 0)%nat by lia.
  rewrite (issp_fw_get_bytes_record _ (set_cursor host (r :: next) 0)
             r next 0%nat); auto; try lia.
  cbn [issp_fw_get_bytes skipn]. rewrite app_nil_r, set_cursor_twice.
  reflexivity.
Qed.

Lemma issp_fw_seek_security_read_witness :
  issp_fw_get_bytes
    (length (data (mk_binrec SECURITY_ADDR 2 [xaa; xbb])))
    (issp_fw_seek_security
       (set_security_rec sample_host
          [mk_binrec SECURITY_ADDR 2 [xaa; xbb];
           mk_binrec CHECKSUM_ADDR 2 [x12; x34]]))
  = Some (data (mk_binrec SECURITY_ADDR 2 [xaa; xbb]),
          set_cursor
            (set_security_rec sample_host
               [mk_binrec SECURITY_ADDR 2 [xaa; xbb];
                mk_binrec CHECKSUM_ADDR 2 [x12; x34]])
            [mk_binrec CHECKSUM_ADDR 2 [x12; x34]] 0).
Proof.
  apply (issp_fw_seek_security_read
           (set_security_rec sample_host
              [mk_binrec SECURITY_ADDR 2 [xaa; xbb];
               mk_binrec CHECKSUM_ADDR 2 [x12; x34]])
           (mk_binrec SECURITY_ADDR 2 [xaa; xbb])
           [mk_binrec CHECKSUM_ADDR 2 [x12; x34]]).
  - reflexivity.
  - reflexivity.
  - cbn. lia.
Defined.

(** ** More on the validation *)

Section CheckFwEffects.

Variable SEC : Z.
Variable CHK : Z.

(** What one iteration leaves alone, and what it does to the security
    pointer. *)
Lemma check_fw_rec_frame size rec r h c :
  let res := check_fw_rec SEC CHK size rec r h c in
  cur_rec (fst res) = cur_rec h /\
  cur_idx (fst res) = cur_idx h /\
  si_id (fst res) = si_id h /\
  security_rec (fst res)
  = (if hit_security SEC r then rec else security_rec h).
Proof.
  unfold check_fw_rec, hit_security.
  destruct (CInt.add (CInt.int (addr r)) (len r) =? size);
    destruct (CInt.int (addr r) =? SEC);
    destruct (CInt.int (addr r) =? CHK); cbn [pdata set_security_rec
      set_checksum_fw set_version_fw];
    destruct ((version_addr (pdata h) >? CInt.int (addr r)) &&
              (version_addr (pdata h)
               <? CInt.add (CInt.int (addr r)) (len r)));
    cbn; repeat split.
Qed.

Lemma check_fw_loop_frame size recs :
  forall h c,
    let h' := fst (check_fw_loop SEC CHK size recs h c) in
    pdata h' = pdata h /\ fw h' = fw h /\ cur_rec h' = cur_rec h /\
    cur_idx h' = cur_idx h /\ si_id h' = si_id h.
Proof.
  induction recs as [|r next IH]; intros h c; [cbn; tauto|].
  cbn [check_fw_loop].
  destruct (check_fw_rec_spec SEC CHK size (r :: next) r h c)
    as (_ & Hpd & Hfw & _).
  destruct (check_fw_rec_frame size (r :: next) r h c)
    as (Hrec & Hidx & Hid & _).
  destruct (check_fw_rec SEC CHK size (r :: next) r h c) as [h1 c1].
  cbn [fst] in *.
  destruct (c1 =? 4); cbn [fst]; [tauto|].
  destruct (IH h1 c1) as (H1 & H2 & H3 & H4 & H5).
  repeat split; congruence.
Qed.

(** The security pointer after a scan is the one before it, or designates
    a record of the scanned stream that lies at the security address. *)
Lemma check_fw_loop_security_inv size recs :
  forall h c,
    security_rec (fst (check_fw_loop SEC CHK size recs h c))
    = security_rec h \/
    exists pre r next,
      recs = pre ++ r :: next /\ hit_security SEC r = true /\
      security_rec (fst (check_fw_loop SEC CHK size recs h c)) = r :: next.
Proof.
  induction recs as [|r next IH]; intros h c; [left; reflexivity|].
  cbn [check_fw_loop].
  destruct (check_fw_rec_frame size (r :: next) r h c) as (_ & _ & _ & Hs).
  destruct (check_fw_rec SEC CHK size (r :: next) r h c) as [h1 c1].
  cbn [fst] in Hs.
  assert (Hone : security_rec h1 = security_rec h \/
                 (hit_security SEC r = true /\
                  security_rec h1 = r :: next)).
  { destruct (hit_security SEC r); [right; auto|left; exact Hs]. }
  destruct (c1 =? 4); cbn [fst].
  - destruct Hone as [E|[Hr E]]; [left; exact E|].
    right. exists [], r, next. repeat split; auto.
  - destruct (IH h1 c1) as [E|(pre & r' & next' & Hl & Hr' & E)].
    + rewrite E. destruct Hone as [E1|[Hr E1]]; [left; exact E1|].
      right. exists [], r, next. repeat split; auto.
    + right. exists (r :: pre), r', next'.
      repeat split; auto. cbn. f_equal. exact Hl.
Qed.

(** The validation changes nothing but the three fields it extracts: the
    configuration, the image, the read cursor and the identity are as
    before; and the security pointer afterwards is the one before the call
    or designates a record of the image whose address is the security
    address. *)
Theorem issp_check_fw_effects (h : issp_host) :
  let h' := snd (issp_check_fw SEC CHK h) in
  pdata h' = pdata h /\ fw h' = fw h /\
  cur_rec h' = cur_rec h /\ cur_idx h' = cur_idx h /\
  si_id h' = si_id h /\
  (security_rec h' = security_rec h \/
   exists pre r next,
     fw h = pre ++ r :: next /\ CInt.int (addr r) = SEC /\
     security_rec h' = r :: next).
Proof.
  intros h'. subst h'. rewrite issp_check_fw_host.
  set (size := CInt.mul (block_size (pdata h)) (blocks (pdata h))).
  destruct (check_fw_loop_frame size (fw h) h 0) as (H1 & H2 & H3 & H4 & H5).
  repeat (split; [assumption|]).
  destruct (check_fw_loop_security_inv size (fw h) h 0)
    as [E|(pre & r & next & Hl & Hr & E)]; [left; exact E|].
  right. exists pre, r, next. repeat split; try assumption.
  apply Z.eqb_eq. exact Hr.
Qed.

(** Acceptance in general: the validation returns 0 exactly when the
    conditions met by the records of the image, each counted once per
    record that meets it, number at least four, whichever conditions they
    are; otherwise it returns -EINVAL. *)
Theorem issp_check_fw_accepts (h : issp_host) :
  let size := CInt.mul (block_size (pdata h)) (blocks (pdata h)) in
  let va := version_addr (pdata h) in
  (fst (issp_check_fw SEC CHK h) = 0 <->
   4 <= count (hit_size size) (fw h) + count (hit_security SEC) (fw h)
        + count (hit_checksum CHK) (fw h) + count (hit_version va) (fw h)) /\
  (fst (issp_check_fw SEC CHK h) = 0 \/
   fst (issp_check_fw SEC CHK h) = - EINVAL).
Proof.
  intros size va.
  destruct (issp_check_fw_ret SEC CHK h) as [Hret Herr]. fold size va in Hret.
  rewrite total_hits_counts in Hret. split; [exact Hret|].
  destruct (Z.eq_dec (fst (issp_check_fw SEC CHK h)) 0) as [E|E];
    [left; exact E|right; apply Herr; exact E].
Qed.

End CheckFwEffects.

Section CheckFwCompose.

Variable SEC : Z.
Variable CHK : Z.

Lemma issp_check_fw_fst h :
  fst (issp_check_fw SEC CHK h)
  = if snd (check_fw_loop SEC CHK
              (CInt.mul (block_size (pdata h)) (blocks (pdata h)))
              (fw h) h 0) <? 4
    then - EINVAL else 0.
Proof.
  unfold issp_check_fw.
  destruct (check_fw_loop SEC CHK _ (fw h) h 0) as [h1 c1].
  cbn [snd]. destruct (c1 <? 4); reflexivity.
Qed.

(** In a scan that finds exactly four conditions, the security pointer
    ends at the last record of the stream that lies at the security
    address. *)
Lemma check_fw_loop_security (pd : issp_platform_data) (size : Z) :
  forall recs h c,
    pdata h = pd ->
    c + total_hits SEC CHK size (version_addr pd) recs = 4 ->
    (count (hit_security SEC) recs = 0 ->
     security_rec (fst (check_fw_loop SEC CHK size recs h c))
     = security_rec h) /\
    (1 <= count (hit_security SEC) recs ->
     exists pre r next,
       recs = pre ++ r :: next /\ hit_security SEC r = true /\
       security_rec (fst (check_fw_loop SEC CHK size recs h c))
       = r :: next).
Proof.
  induction recs as [|r next IH]; intros h c Hpd Hsum.
  - split; [reflexivity|]. cbn. lia.
  - cbn [check_fw_loop].
    cbn [total_hits fold_right] in Hsum.
    fold (total_hits SEC CHK size (version_addr pd) next) in Hsum.
    rewrite count_cons.
    pose proof (count_nonneg (hit_security SEC) next) as Hnn.
    assert (Hle : count (hit_security SEC) next
                  <= total_hits SEC CHK size (version_addr pd) next).
    { rewrite total_hits_counts.
      pose proof (count_nonneg (hit_size size) next).
      pose proof (count_nonneg (hit_checksum CHK) next).
      pose proof (count_nonneg (hit_version (version_addr pd)) next).
      lia. }
    destruct (check_fw_rec_spec SEC CHK size (r :: next) r h c)
      as (Hc & Hpd1 & _).
    destruct (check_fw_rec_frame SEC CHK size (r :: next) r h c)
      as (_ & _ & _ & Hs).
    rewrite Hpd in Hc.
    destruct (check_fw_rec SEC CHK size (r :: next) r h c) as [h1 c1].
    cbn [fst snd] in Hc, Hpd1, Hs.
    destruct (Z.eqb_spec c1 4) as [E|E]; cbn [fst].
    + split.
      * intros H0. destruct (hit_security SEC r); cbn [Z.b2z] in H0;
          [lia|exact Hs].
      * intros H1. destruct (hit_security SEC r) eqn:Hh; cbn [Z.b2z] in H1;
          [|lia].
        exists [], r, next. repeat split; auto.
    + pose proof (total_hits_nonneg SEC CHK size (version_addr pd) next).
      destruct (IH h1 c1) as [IHa IHb]; [congruence|lia|].
      split.
      * intros H0. destruct (hit_security SEC r); cbn [Z.b2z] in H0;
          [lia|]. rewrite IHa by lia. exact Hs.
      * intros H1.
        destruct (Z.eq_dec (count (hit_security SEC) next) 0) as [Z0|Z0].
        -- rewrite IHa by exact Z0.
           destruct (hit_security SEC r) eqn:Hh; cbn [Z.b2z] in H1; [|lia].
           exists [], r, next. repeat split; auto.
        -- destruct IHb as (pre & r' & next' & Hl & Hr' & Es); [lia|].
           exists (r :: pre), r', next'.
           repeat split; auto. cbn. f_equal. exact Hl.
Qed.

(** Validation, seek and read compose: when every condition is met by at
    most one record and the validation accepts the image, the security
    pointer designates the record at the security address, and after
    [issp_fw_seek_security] as many calls of [issp_fw_get_byte] as that
    record has data bytes return its data and leave the cursor at the
    record after it. *)
Theorem issp_check_fw_seek_security (h : issp_host) :
  let size := CInt.mul (block_size (pdata h)) (blocks (pdata h)) in
  let va := version_addr (pdata h) in
  let h' := snd (issp_check_fw SEC CHK h) in
  count (hit_size size) (fw h) <= 1 ->
  count (hit_security SEC) (fw h) <= 1 ->
  count (hit_checksum CHK) (fw h) <= 1 ->
  count (hit_version va) (fw h) <= 1 ->
  stream_wf (fw h) ->
  fst (issp_check_fw SEC CHK h) = 0 ->
  exists pre r next,
    fw h = pre ++ r :: next /\ CInt.int (addr r) = SEC /\
    security_rec h' = r :: next /\
    issp_fw_get_bytes (length (data r)) (issp_fw_seek_security h')
    = Some (data r, set_cursor h' next 0).
Proof.
  intros size va h' Hsz Hsec Hchk Hver Hwf Hok.
  destruct (issp_check_fw_ret SEC CHK h) as [Hret _]. fold size va in Hret.
  apply Hret in Hok. rewrite total_hits_counts in Hok.
  pose proof (count_nonneg (hit_size size) (fw h)).
  pose proof (count_nonneg (hit_security SEC) (fw h)).
  pose proof (count_nonneg (hit_checksum CHK) (fw h)).
  pose proof (count_nonneg (hit_version va) (fw h)).
  destruct (check_fw_loop_security (pdata h) size (fw h) h 0) as [_ Hs];
    [reflexivity | fold va; rewrite total_hits_counts; lia |].
  destruct Hs as (pre & r & next & Hl & Hr & Es); [lia|].
  exists pre, r, next.
  assert (Esec : security_rec h' = r :: next).
  { subst h'. rewrite issp_check_fw_host. exact Es. }
  split; [exact Hl|]. split; [apply Z.eqb_eq; exact Hr|].
  split; [exact Esec|].
  assert (Hr_wf : binrec_wf r /\ 0 < len r <= 65535).
  { unfold stream_wf in Hwf. rewrite Hl in Hwf.
    apply Forall_app in Hwf. destruct Hwf as [_ Hwf].
    inversion Hwf; assumption. }
  destruct Hr_wf as [Hbw Hlen]. unfold binrec_wf in Hbw.
  unfold issp_fw_seek_security. rewrite Esec.
  replace (length (data r)) with (S (pred (length (data r))) + 0)%nat by lia.
  rewrite (issp_fw_get_bytes_record _ (set_cursor h' (r :: next) 0)
             r next 0%nat); auto; try lia.
  cbn [issp_fw_get_bytes skipn]. rewrite app_nil_r, set_cursor_twice.
  reflexivity.
Qed.

(** The scan stops at the record that confirms the fourth condition: what
    follows it in the stream has no influence on the counter, the checksum
    or the version. *)
Lemma check_fw_loop_trailing (more : list ihex_binrec) (size : Z) :
  forall l h1 h2 c,
    pdata h1 = pdata h2 ->
    checksum_fw h1 = checksum_fw h2 -> version_fw h1 = version_fw h2 ->
    c + total_hits SEC CHK size (version_addr (pdata h1)) l = 4 ->
    c < 4 ->
    snd (check_fw_loop SEC CHK size l h1 c) = 4 /\
    snd (check_fw_loop SEC CHK size (l ++ more) h2 c) = 4 /\
    checksum_fw (fst (check_fw_loop SEC CHK size l h1 c))
    = checksum_fw (fst (check_fw_loop SEC CHK size (l ++ more) h2 c)) /\
    version_fw (fst (check_fw_loop SEC CHK size l h1 c))
    = version_fw (fst (check_fw_loop SEC CHK size (l ++ more) h2 c)).
Proof.
  induction l as [|r next IH]; intros h1 h2 c Hpd Hck Hvr Hsum Hc.
  - cbn in Hsum. lia.
  - cbn [app check_fw_loop].
    cbn [total_hits fold_right] in Hsum.
    fold (total_hits SEC CHK size (version_addr (pdata h1)) next) in Hsum.
    pose proof (total_hits_nonneg SEC CHK size (version_addr (pdata h1)) next).
    destruct (check_fw_rec_spec SEC CHK size (r :: next) r h1 c)
      as (Hc1 & Hpd1 & _ & Hck1 & Hvr1).
    destruct (check_fw_rec_spec SEC CHK size (r :: next ++ more) r h2 c)
      as (Hc2 & Hpd2 & _ & Hck2 & Hvr2).
    rewrite <- Hpd in Hc2, Hvr2. rewrite <- Hck in Hck2.
    rewrite <- Hvr in Hvr2.
    destruct (check_fw_rec SEC CHK size (r :: next) r h1 c) as [a1 c1].
    destruct (check_fw_rec SEC CHK size (r :: next ++ more) r h2 c)
      as [a2 c2].
    cbn [fst snd] in *.
    assert (Ecc : c2 = c1) by congruence. clear Hc2. subst c2.
    destruct (Z.eqb_spec c1 4) as [E|E]; cbn [fst snd].
    + repeat split; congruence.
    + apply IH; try congruence; try lia.
      rewrite Hpd1. lia.
Qed.

(** Records that follow the one confirming the fourth condition are never
    examined: when the records of an image meet exactly four conditions in
    total, appending further records, whatever they contain, changes
    neither the result of the validation nor the checksum and the version
    it extracts. *)
Theorem issp_check_fw_trailing_records
        (h1 h2 : issp_host) (more : list ihex_binrec) :
  let size := CInt.mul (block_size (pdata h1)) (blocks (pdata h1)) in
  let va := version_addr (pdata h1) in
  pdata h2 = pdata h1 ->
  checksum_fw h2 = checksum_fw h1 -> version_fw h2 = version_fw h1 ->
  fw h2 = fw h1 ++ more ->
  count (hit_size size) (fw h1) + count (hit_security SEC) (fw h1)
  + count (hit_checksum CHK) (fw h1) + count (hit_version va) (fw h1) = 4 ->
  fst (issp_check_fw SEC CHK h1) = 0 /\
  fst (issp_check_fw SEC CHK h2) = 0 /\
  checksum_fw (snd (issp_check_fw SEC CHK h2))
  = checksum_fw (snd (issp_check_fw SEC CHK h1)) /\
  version_fw (snd (issp_check_fw SEC CHK h2))
  = version_fw (snd (issp_check_fw SEC CHK h1)).
Proof.
  intros size va Hpd Hck Hvr Hfw Hsum.
  rewrite <- total_hits_counts in Hsum.
  destruct (check_fw_loop_trailing more size (fw h1) h1 h2 0)
    as (E1 & E2 & Eck & Evr); auto; try lia.
  rewrite !issp_check_fw_fst, !issp_check_fw_host.
  rewrite Hpd, Hfw. fold size. rewrite E1, E2.
  repeat split; auto.
Qed.

End CheckFwCompose.

Lemma issp_check_fw_seek_security_witness :
  exists pre r next,
    fw sample_host = pre ++ r :: next /\
    CInt.int (addr r) = SECURITY_ADDR /\
    security_rec
      (snd (issp_check_fw SECURITY_ADDR CHECKSUM_ADDR sample_host))
    = r :: next /\
    issp_fw_get_bytes (length (data r))
      (issp_fw_seek_security
         (snd (issp_check_fw SECURITY_ADDR CHECKSUM_ADDR sample_host)))
    = Some (data r,
            set_cursor
              (snd (issp_check_fw SECURITY_ADDR CHECKSUM_ADDR sample_host))
              next 0).
Proof.
  apply (issp_check_fw_seek_security SECURITY_ADDR CHECKSUM_ADDR sample_host).
  - vm_compute. intros H. discriminate H.
  - vm_compute. intros H. discriminate H.
  - vm_compute. intros H. discriminate H.
  - vm_compute. intros H. discriminate H.
  - repeat (constructor; [split; [reflexivity | simpl; lia] |]).
    constructor.
  - reflexivity.
Defined.

Lemma issp_check_fw_trailing_records_witness :
  fst (issp_check_fw SECURITY_ADDR CHECKSUM_ADDR sample_host) = 0 /\
  fst (issp_check_fw SECURITY_ADDR CHECKSUM_ADDR
         (fresh_host sample_pdata
            (sample_fw ++ [mk_binrec CHECKSUM_ADDR 2 [xff; xff]]))) = 0 /\
  checksum_fw
    (snd (issp_check_fw SECURITY_ADDR CHECKSUM_ADDR
            (fresh_host sample_pdata
               (sample_fw ++ [mk_binrec CHECKSUM_ADDR 2 [xff; xff]]))))
  = checksum_fw (snd (issp_check_fw SECURITY_ADDR CHECKSUM_ADDR sample_host))
  /\
  version_fw
    (snd (issp_check_fw SECURITY_ADDR CHECKSUM_ADDR
            (fresh_host sample_pdata
               (sample_fw ++ [mk_binrec CHECKSUM_ADDR 2 [xff; xff]]))))
  = version_fw (snd (issp_check_fw SECURITY_ADDR CHECKSUM_ADDR sample_host)).
Proof.
  apply (issp_check_fw_trailing_records SECURITY_ADDR CHECKSUM_ADDR
           sample_host
           (fresh_host sample_pdata
              (sample_fw ++ [mk_binrec CHECKSUM_ADDR 2 [xff; xff]]))
           [mk_binrec CHECKSUM_ADDR 2 [xff; xff]]);
    reflexivity.
Defined.

(** ** More on the update decision *)

(** The address the update decision reads.  For a non-negative version
    address and a block size between 1 and 256, the block index and the
    offset that [issp_need_update] passes to the block read name the
    version address (index * block size + offset) exactly when the version
    address lies in one of the first 256 blocks; in that case they are the
    quotient and the remainder of the version address by the block size.
    Beyond that the 8-bit index wraps and another address is read. *)
Theorem version_block_offset (host : issp_host) :
  let va := version_addr (pdata host) in
  let bs := block_size (pdata host) in
  0 <= va < 2 ^ 31 -> 0 < bs <= 256 ->
  (version_block host * bs + version_offset host = va <-> va / bs <= 255) /\
  (va / bs <= 255 ->
   version_block host = va / bs /\ version_offset host = va mod bs).
Proof.
  intros va bs Hva Hbs.
  unfold version_offset, version_block. fold va bs.
  rewrite !Z.quot_div_nonneg by lia.
  unfold CInt.u8, CInt.sub, CInt.mul.
  pose proof (Z.div_mod va bs ltac:(lia)) as Hdm.
  pose proof (Z.mod_pos_bound va bs ltac:(lia)) as Hrem.
  pose proof (Z.div_pos va bs ltac:(lia) ltac:(lia)) as Hq.
  change (2 ^ 8) with 256.
  set (q := va / bs) in *. set (rm := va mod bs) in *.
  pose proof (Z.div_mod q 256 ltac:(lia)) as Hqdm.
  pose proof (Z.mod_pos_bound q 256 ltac:(lia)) as Hqm.
  set (i := q mod 256) in *. set (w := q / 256) in *.
  assert (Hibs : 0 <= i * bs <= 255 * 256) by nia.
  rewrite (int_small (i * bs)) by lia.
  assert (Hdiff : va - i * bs = 256 * w * bs + rm) by nia.
  assert (Hw : 0 <= w) by lia.
  assert (Hdnn : 0 <= va - i * bs < 2 ^ 31) by nia.
  rewrite (int_small (va - i * bs)) by lia.
  pose proof (Z.mod_pos_bound (va - i * bs) 256 ltac:(lia)) as Ho.
  split.
  - split.
    + intros Heq.
      destruct (Z.eq_dec w 0) as [W0|W0]; [lia|].
      assert (256 * bs <= va - i * bs) by nia. lia.
    + intros Hle. assert (W0 : w = 0) by lia.
      rewrite W0 in Hdiff. rewrite Z.mod_small by lia. lia.
  - intros Hle. assert (W0 : w = 0) by lia.
    rewrite W0 in Hdiff. split; [lia|].
    rewrite Z.mod_small by lia. lia.
Qed.

Lemma version_block_offset_witness :
  (version_block sample_host * 4 + version_offset sample_host = 5 <->
   5 / 4 <= 255) /\
  (5 / 4 <= 255 ->
   version_block sample_host = 5 / 4 /\
   version_offset sample_host = 5 mod 4).
Proof.
  apply (version_block_offset sample_host).
  - cbn. lia.
  - cbn. lia.
Defined.

(** ** More on the attach sequence *)

Lemma occurrences_after c pre k :
  occurrences c (snd (after pre k))
  = (occurrences c pre + occurrences c (snd k))%nat.
Proof.
  unfold occurrences. cbn [after snd]. apply count_occ_app.
Qed.

Lemma occurrences_absent c l : ~ In c l -> occurrences c l = 0%nat.
Proof.
  unfold occurrences. apply count_occ_not_In.
Qed.

Lemma programmer_call_after pre k :
  existsb programmer_call (snd (after pre k))
  = existsb programmer_call pre || existsb programmer_call (snd k).
Proof.
  cbn [after snd]. apply existsb_app.
Qed.

(** The end of a run that returns early. *)
Ltac early_exit :=
  cbn; split; [reflexivity | split; [absent | first [discriminate | assumption]]].

Section ProbeMore.

Variable SEC : Z.
Variable CHK : Z.
Variable env : probe_env.

(** The update step written out with the answer of the decision. *)
Lemma probe_update_eq pd host :
  probe_update env pd host
  = after (snd (issp_need_update (env_read_block env) host
                  (env_update_initial env)))
      (if negb (fst (fst (issp_need_update (env_read_block env) host
                            (env_update_initial env))) =? 0)
       then probe_err_id pd
       else if snd (fst (issp_need_update (env_read_block env) host
                           (env_update_initial env)))
            then after [issp_program;
                        if env_program env host =? 0
                        then dev_info "Firmware update successfully!"
                        else dev_err "Firmware update failed!"]
                       (probe_setup env pd)
            else probe_setup env pd).
Proof.
  unfold probe_update.
  destruct (issp_need_update (env_read_block env) host
              (env_update_initial env)) as [[ret update] calls].
  reflexivity.
Qed.

(** A run that stops before the validation makes no programmer call, has
    no image to release and reports an error. *)
Lemma probe_not_reached :
  (forall pd, ~ probe_reaches_check_fw env pd) ->
  existsb programmer_call (snd (issp_probe SEC CHK env)) = false /\
  ~ In release_firmware (snd (issp_probe SEC CHK env)) /\
  fst (issp_probe SEC CHK env) <> 0.
Proof.
  intros Hnot. unfold issp_probe, probe_gpio_requests.
  destruct (env_platform_data env) as [pd|] eqn:Hpd; [|early_exit].
  destruct (env_gpio_is_valid env (reset_gpio pd)) eqn:Hv1; [|early_exit].
  destruct (env_gpio_is_valid env (data_gpio pd)) eqn:Hv2; [|early_exit].
  destruct (env_gpio_is_valid env (clk_gpio pd)) eqn:Hv3; [|early_exit].
  cbn [negb orb].
  destruct (env_gpio_request env (reset_gpio pd) =? 0) eqn:Hr1;
    cbn -[probe_firmware]; rewrite ?Hr1; cbn -[probe_firmware];
    [|apply Z.eqb_neq in Hr1; early_exit].
  destruct (env_gpio_request env (data_gpio pd) =? 0) eqn:Hr2;
    cbn -[probe_firmware]; rewrite ?Hr2; cbn -[probe_firmware];
    [|apply Z.eqb_neq in Hr2; early_exit].
  destruct (env_gpio_request env (clk_gpio pd) =? 0) eqn:Hr3;
    cbn -[probe_firmware]; rewrite ?Hr3; cbn -[probe_firmware];
    [|apply Z.eqb_neq in Hr3; early_exit].
  destruct (env_kzalloc_host_ok env) eqn:Hk; [|early_exit].
  destruct (env_request_firmware env =? 0) eqn:Hf;
    [|apply Z.eqb_neq in Hf; early_exit].
  exfalso. apply (Hnot pd).
  apply Z.eqb_eq in Hr1, Hr2, Hr3, Hf. repeat split; assumption.
Qed.

(** Whether a run gets as far as the validation can be told from the
    answers of the kernel. *)
Lemma probe_reaches_dec :
  (exists pd, probe_reaches_check_fw env pd) \/
  (forall pd, ~ probe_reaches_check_fw env pd).
Proof.
  unfold probe_reaches_check_fw.
  destruct (env_platform_data env) as [pd|] eqn:Hpd;
    [|right; intros pd' (H & _); discriminate H].
  destruct (env_gpio_is_valid env (reset_gpio pd)) eqn:Hv1;
    [|right; intros pd' (H & H1 & _); injection H as <-; congruence].
  destruct (env_gpio_is_valid env (data_gpio pd)) eqn:Hv2;
    [|right; intros pd' (H & _ & H1 & _); injection H as <-; congruence].
  destruct (env_gpio_is_valid env (clk_gpio pd)) eqn:Hv3;
    [|right; intros pd' (H & _ & _ & H1 & _); injection H as <-; congruence].
  destruct (Z.eq_dec (env_gpio_request env (reset_gpio pd)) 0) as [Hr1|Hr1];
    [|right; intros pd' (H & _ & _ & _ & H1 & _); injection H as <-;
      contradiction].
  destruct (Z.eq_dec (env_gpio_request env (data_gpio pd)) 0) as [Hr2|Hr2];
    [|right; intros pd' (H & _ & _ & _ & _ & H1 & _); injection H as <-;
      contradiction].
  destruct (Z.eq_dec (env_gpio_request env (clk_gpio pd)) 0) as [Hr3|Hr3];
    [|right; intros pd' (H & _ & _ & _ & _ & _ & H1 & _); injection H as <-;
      contradiction].
  destruct (env_kzalloc_host_ok env) eqn:Hk;
    [|right; intros pd' (H & _ & _ & _ & _ & _ & _ & H1 & _);
      discriminate H1].
  destruct (Z.eq_dec (env_request_firmware env) 0) as [Hf|Hf];
    [|right; intros pd' (H & _ & _ & _ & _ & _ & _ & _ & H1);
      contradiction].
  left. exists pd. repeat split; assumption.
Qed.

(** The set-up of the reset paths: it releases the image once on each of
    its three ways out, never programs, and fails with -ENOMEM, without a
    run step, when the wake lock or the work queue cannot be had. *)
Lemma probe_setup_facts pd :
  occurrences release_firmware (snd (probe_setup env pd)) = 1%nat /\
  occurrences issp_program (snd (probe_setup env pd)) = 0%nat /\
  fst (probe_setup env pd)
  = (if env_kzalloc_wake_lock_ok env && env_create_workqueue_ok env
     then 0 else - ENOMEM) /\
  (env_kzalloc_wake_lock_ok env && env_create_workqueue_ok env = false ->
   released_without_run pd (snd (probe_setup env pd))).
Proof.
  set (head := [mutex_init] ++ create_file env "issp_reset"
                 ++ create_file env "issp_usbreset"
                 ++ create_file env "issp_data"
                 ++ create_file env "issp_clk"
                 ++ [devm_kzalloc_wake_lock]).
  assert (Hrel : ~ In release_firmware head)
    by (intros Hin; apply probe_setup_head_calls in Hin; tauto).
  assert (Hrun : ~ In issp_uc_run head)
    by (intros Hin; apply probe_setup_head_calls in Hin; tauto).
  assert (Hprog : ~ In issp_program head)
    by (intros Hin; apply probe_setup_head_calls in Hin; tauto).
  unfold probe_setup. fold head.
  rewrite !occurrences_after.
  rewrite (occurrences_absent _ _ Hrel), (occurrences_absent _ _ Hprog).
  destruct (env_kzalloc_wake_lock_ok env), (env_create_workqueue_ok env);
    cbn [negb andb]; (split; [reflexivity|]); (split; [reflexivity|]);
    (split; [reflexivity|]); intros Hfail; try discriminate Hfail;
    (apply released_without_run_after; [exact Hrel|exact Hrun|]).
  - apply released_without_run_after; [absent|absent|].
    apply released_without_run_after; [absent|absent|].
    apply released_without_run_after; [absent|absent|].
    apply probe_err_released.
  - apply probe_err_released.
  - apply probe_err_released.
Qed.

(** The run from the validation on, once the image is accepted and the
    identity matches. *)
Lemma issp_probe_decided pd :
  probe_reaches_check_fw env pd ->
  probe_fw_valid SEC CHK env pd ->
  si_id_mismatch (probe_host SEC CHK env pd) pd = false ->
  issp_probe SEC CHK env
  = after (probe_prologue pd)
      (after [issp_uc_program]
         (after (snd (probe_decision SEC CHK env pd))
            (if negb (fst (fst (probe_decision SEC CHK env pd)) =? 0)
             then probe_err_id pd
             else if snd (fst (probe_decision SEC CHK env pd))
                  then after [issp_program;
                              if env_program env (probe_host SEC CHK env pd)
                                 =? 0
                              then dev_info "Firmware update successfully!"
                              else dev_err "Firmware update failed!"]
                             (probe_setup env pd)
                  else probe_setup env pd))).
Proof.
  intros Hreach Hval Hmis.
  rewrite (issp_probe_reached SEC CHK env pd Hreach).
  rewrite (probe_firmware_valid SEC CHK env pd Hval), Hmis.
  rewrite probe_update_eq. reflexivity.
Qed.

Lemma probe_prologue_absent pd c :
  c = release_firmware \/ c = issp_program ->
  occurrences c (probe_prologue pd) = 0%nat.
Proof.
  intros Hc. apply occurrences_absent. intros Hin.
  apply probe_prologue_calls in Hin.
  destruct Hin as (H1 & _ & H3). destruct Hc as [-> | ->]; auto.
Qed.

Lemma probe_decision_absent pd c :
  c = release_firmware \/ c = issp_program ->
  occurrences c (snd (probe_decision SEC CHK env pd)) = 0%nat.
Proof.
  intros Hc. apply occurrences_absent. intros Hin.
  apply issp_need_update_calls in Hin.
  destruct Hin as (H1 & _ & H3). destruct Hc as [-> | ->]; auto.
Qed.

(** The image is released exactly once in every attach that loaded it,
    whether the attach succeeds or fails and on whichever path it ends;
    an attach that stops before the image is loaded releases nothing. *)
Theorem issp_probe_releases_once :
  (forall pd, probe_reaches_check_fw env pd ->
     occurrences release_firmware (snd (issp_probe SEC CHK env)) = 1%nat) /\
  ((forall pd, ~ probe_reaches_check_fw env pd) ->
     occurrences release_firmware (snd (issp_probe SEC CHK env)) = 0%nat).
Proof.
  split.
  - intros pd Hreach.
    destruct (Z.eq_dec
                (fst (issp_check_fw SEC CHK
                        (fresh_host pd (env_firmware env)))) 0)
      as [Hval|Hinv].
    + destruct (si_id_mismatch (probe_host SEC CHK env pd) pd) eqn:Hmis.
      * rewrite (issp_probe_id_mismatch SEC CHK env pd Hreach Hval Hmis).
        cbn [snd]. unfold occurrences. rewrite count_occ_app.
        fold (occurrences release_firmware (probe_prologue pd)).
        rewrite probe_prologue_absent by auto. reflexivity.
      * rewrite (issp_probe_decided pd Hreach Hval Hmis).
        rewrite !occurrences_after.
        rewrite probe_prologue_absent, probe_decision_absent by auto.
        destruct (probe_setup_facts pd) as (Hrel & _).
        destruct (negb (fst (fst (probe_decision SEC CHK env pd)) =? 0));
          [reflexivity|].
        destruct (snd (fst (probe_decision SEC CHK env pd)));
          [|rewrite Hrel; reflexivity].
        rewrite occurrences_after, Hrel.
        destruct (env_program env (probe_host SEC CHK env pd) =? 0);
          reflexivity.
    + rewrite (issp_probe_reached SEC CHK env pd Hreach).
      rewrite (probe_firmware_invalid SEC CHK env pd Hinv).
      rewrite !occurrences_after, probe_prologue_absent by auto.
      reflexivity.
  - intros Hnot. apply occurrences_absent.
    apply (probe_not_reached Hnot).
Qed.

(** The value an attach returns once it has loaded the image: 0 or
    -ENOMEM, and 0 exactly when the image is accepted and then either the
    identity does not match, or the update decision returns an error, or
    the wake lock and the work queue can be set up.  A rejected image is
    reported as -ENOMEM, and neither the result of programming nor a
    failure to create an attribute file changes the value. *)
Theorem issp_probe_return (pd : issp_platform_data) :
  probe_reaches_check_fw env pd ->
  (fst (issp_probe SEC CHK env) = 0 \/
   fst (issp_probe SEC CHK env) = - ENOMEM) /\
  (fst (issp_probe SEC CHK env) = 0 <->
   probe_fw_valid SEC CHK env pd /\
   (si_id_mismatch (probe_host SEC CHK env pd) pd = true \/
    fst (fst (probe_decision SEC CHK env pd)) <> 0 \/
    (env_kzalloc_wake_lock_ok env = true /\
     env_create_workqueue_ok env = true))).
Proof.
  intros Hreach.
  destruct (Z.eq_dec
              (fst (issp_check_fw SEC CHK
                      (fresh_host pd (env_firmware env)))) 0)
    as [Hval|Hinv].
  - destruct (si_id_mismatch (probe_host SEC CHK env pd) pd) eqn:Hmis.
    + rewrite (issp_probe_id_mismatch SEC CHK env pd Hreach Hval Hmis).
      cbn [fst]. split; [left; reflexivity|]. tauto.
    + rewrite (issp_probe_decided pd Hreach Hval Hmis).
      cbn [after fst].
      destruct (probe_setup_facts pd) as (_ & _ & Hret & _).
      destruct (Z.eqb_spec (fst (fst (probe_decision SEC CHK env pd))) 0)
        as [Hd|Hd]; cbn [negb].
      * assert (Hfst : fst (if snd (fst (probe_decision SEC CHK env pd))
                            then after
                                   [issp_program;
                                    if env_program env
                                         (probe_host SEC CHK env pd) =? 0
                                    then dev_info
                                           "Firmware update successfully!"
                                    else dev_err "Firmware update failed!"]
                                   (probe_setup env pd)
                            else probe_setup env pd)
                       = fst (probe_setup env pd))
          by (destruct (snd (fst (probe_decision SEC CHK env pd)));
              reflexivity).
        rewrite Hfst, Hret.
        destruct (env_kzalloc_wake_lock_ok env),
          (env_create_workqueue_ok env); cbn [andb]; unfold ENOMEM;
          (split; [tauto|]); split; try discriminate; try tauto;
          intros (_ & [H|[H|[H1 H2]]]); congruence.
      * cbn [fst]. split; [left; reflexivity|]. tauto.
  - rewrite (issp_probe_reached SEC CHK env pd Hreach).
    rewrite (probe_firmware_invalid SEC CHK env pd Hinv).
    cbn [after fst probe_err]. split; [right; reflexivity|].
    unfold ENOMEM. split; [discriminate|]. intros [H _]. contradiction.
Qed.

(** Programming is attempted at most once, and exactly when the image is
    accepted, the identity matches and the update decision returns 0 with
    the decision true. *)
Theorem issp_probe_programs (pd : issp_platform_data) :
  probe_reaches_check_fw env pd ->
  (occurrences issp_program (snd (issp_probe SEC CHK env)) <= 1)%nat /\
  (occurrences issp_program (snd (issp_probe SEC CHK env)) = 1%nat <->
   probe_fw_valid SEC CHK env pd /\
   si_id_mismatch (probe_host SEC CHK env pd) pd = false /\
   fst (fst (probe_decision SEC CHK env pd)) = 0 /\
   snd (fst (probe_decision SEC CHK env pd)) = true).
Proof.
  intros Hreach.
  destruct (Z.eq_dec
              (fst (issp_check_fw SEC CHK
                      (fresh_host pd (env_firmware env)))) 0)
    as [Hval|Hinv].
  - destruct (si_id_mismatch (probe_host SEC CHK env pd) pd) eqn:Hmis.
    + rewrite (issp_probe_id_mismatch SEC CHK env pd Hreach Hval Hmis).
      cbn [snd]. unfold occurrences. rewrite count_occ_app.
      fold (occurrences issp_program (probe_prologue pd)).
      rewrite probe_prologue_absent by auto. cbn.
      split; [lia|]. split; [discriminate|].
      intros (_ & H & _). discriminate H.
    + rewrite (issp_probe_decided pd Hreach Hval Hmis).
      rewrite !occurrences_after.
      rewrite probe_prologue_absent, probe_decision_absent by auto.
      destruct (probe_setup_facts pd) as (_ & Hprog & _).
      destruct (Z.eqb_spec (fst (fst (probe_decision SEC CHK env pd))) 0)
        as [Hd|Hd]; cbn [negb].
      * destruct (snd (fst (probe_decision SEC CHK env pd))).
        -- rewrite occurrences_after, Hprog.
           destruct (env_program env (probe_host SEC CHK env pd) =? 0);
             cbn; (split; [lia|]); tauto.
        -- rewrite Hprog. cbn. split; [lia|]. split; [discriminate|].
           intros (_ & _ & _ & H). discriminate H.
      * cbn. split; [lia|]. split; [discriminate|].
        intros (_ & _ & H & _). contradiction.
  - rewrite (issp_probe_reached SEC CHK env pd Hreach).
    rewrite (probe_firmware_invalid SEC CHK env pd Hinv).
    rewrite !occurrences_after, probe_prologue_absent by auto. cbn.
    split; [lia|]. split; [discriminate|]. intros (H & _). contradiction.
Qed.

(** The programmer is not called before the image is accepted: an attach
    makes a call of [issp_uc_program], [issp_read_block], [issp_program] or
    [issp_uc_run] exactly when it has claimed the gpios, allocated the
    host, loaded the image and validated it.  (The reset and clock lines
    are configured as outputs earlier, right after the gpios are
    claimed.) *)
Theorem issp_probe_programmer_contact :
  existsb programmer_call (snd (issp_probe SEC CHK env)) = true <->
  exists pd, probe_reaches_check_fw env pd /\ probe_fw_valid SEC CHK env pd.
Proof.
  split.
  - intros Hcall.
    destruct probe_reaches_dec as [(pd & Hreach)|Hnot].
    + exists pd. split; [exact Hreach|].
      destruct (Z.eq_dec
                  (fst (issp_check_fw SEC CHK
                          (fresh_host pd (env_firmware env)))) 0)
        as [Hval|Hinv]; [exact Hval|].
      exfalso.
      rewrite (issp_probe_reached SEC CHK env pd Hreach) in Hcall.
      rewrite (probe_firmware_invalid SEC CHK env pd Hinv) in Hcall.
      cbn in Hcall. discriminate Hcall.
    + destruct (probe_not_reached Hnot) as (Hno & _).
      rewrite Hno in Hcall. discriminate Hcall.
  - intros (pd & Hreach & Hval).
    rewrite (issp_probe_reached SEC CHK env pd Hreach).
    rewrite (probe_firmware_valid SEC CHK env pd Hval).
    rewrite !programmer_call_after. cbn. rewrite ?orb_true_r. reflexivity.
Qed.

(** When the wake lock or the work queue cannot be set up after the update
    step, the attach fails with -ENOMEM and releases the lines and the
    image without a run step, also when the controller has just been
    programmed. *)
Theorem issp_probe_setup_failure (pd : issp_platform_data) :
  probe_reaches_check_fw env pd ->
  probe_fw_valid SEC CHK env pd ->
  si_id_mismatch (probe_host SEC CHK env pd) pd = false ->
  fst (fst (probe_decision SEC CHK env pd)) = 0 ->
  env_kzalloc_wake_lock_ok env && env_create_workqueue_ok env = false ->
  fst (issp_probe SEC CHK env) = - ENOMEM /\
  released_without_run pd (snd (issp_probe SEC CHK env)) /\
  (snd (fst (probe_decision SEC CHK env pd)) = true ->
   In issp_program (snd (issp_probe SEC CHK env))).
Proof.
  intros Hreach Hval Hmis Hd Hfail.
  rewrite (issp_probe_decided pd Hreach Hval Hmis).
  rewrite Hd. cbn [Z.eqb negb].
  destruct (probe_setup_facts pd) as (_ & _ & Hret & Hrel).
  specialize (Hrel Hfail). rewrite Hfail in Hret.
  assert (Hpro : ~ In release_firmware (probe_prologue pd) /\
                 ~ In issp_uc_run (probe_prologue pd)).
  { split; intros Hin; apply probe_prologue_calls in Hin; tauto. }
  assert (Hdec : ~ In release_firmware (snd (probe_decision SEC CHK env pd))
                 /\ ~ In issp_uc_run (snd (probe_decision SEC CHK env pd))).
  { split; intros Hin; apply issp_need_update_calls in Hin; tauto. }
  destruct (snd (fst (probe_decision SEC CHK env pd))).
  - split; [exact Hret|]. split.
    + apply released_without_run_after; [tauto|tauto|].
      apply released_without_run_after; [absent|absent|].
      apply released_without_run_after; [tauto|tauto|].
      apply released_without_run_after; [|
        |exact Hrel];
        destruct (env_program env (probe_host SEC CHK env pd) =? 0); absent.
    + intros _. cbn [after snd]. rewrite !in_app_iff. cbn [In]. tauto.
  - split; [exact Hret|]. split; [|discriminate].
    apply released_without_run_after; [tauto|tauto|].
    apply released_without_run_after; [absent|absent|].
    apply released_without_run_after; [tauto|tauto|].
    exact Hrel.
Qed.

(** The attach stops at the first step that fails and returns that step's
    error: missing platform data or an invalid gpio give -EINVAL before
    anything is requested; a failing gpio request ends the attach with the
    error of that request, the later gpios not being requested; a failing
    host allocation gives -ENOMEM; a failing image load gives the error of
    the load.  None of these paths switches a line back or makes any
    further call. *)
Theorem issp_probe_early_failures :
  (env_platform_data env = None ->
   issp_probe SEC CHK env = (- EINVAL, [dev_err "Invalid platform data!"])) /\
  (forall pd,
     env_platform_data env = Some pd ->
     (env_gpio_is_valid env (reset_gpio pd)
      && env_gpio_is_valid env (data_gpio pd)
      && env_gpio_is_valid env (clk_gpio pd) = false ->
      issp_probe SEC CHK env
      = (- EINVAL, [dev_err "Invalid platform data!"])) /\
     (env_gpio_is_valid env (reset_gpio pd)
      && env_gpio_is_valid env (data_gpio pd)
      && env_gpio_is_valid env (clk_gpio pd) = true ->
      (env_gpio_request env (reset_gpio pd) <> 0 ->
       issp_probe SEC CHK env
       = (env_gpio_request env (reset_gpio pd),
          [devm_gpio_request (reset_gpio pd)])) /\
      (env_gpio_request env (reset_gpio pd) = 0 ->
       env_gpio_request env (data_gpio pd) <> 0 ->
       issp_probe SEC CHK env
       = (env_gpio_request env (data_gpio pd),
          [devm_gpio_request (reset_gpio pd);
           devm_gpio_request (data_gpio pd)])) /\
      (env_gpio_request env (reset_gpio pd) = 0 ->
       env_gpio_request env (data_gpio pd) = 0 ->
       env_gpio_request env (clk_gpio pd) <> 0 ->
       issp_probe SEC CHK env
       = (env_gpio_request env (clk_gpio pd),
          [devm_gpio_request (reset_gpio pd);
           devm_gpio_request (data_gpio pd);
           devm_gpio_request (clk_gpio pd)])) /\
      (env_gpio_request env (reset_gpio pd) = 0 ->
       env_gpio_request env (data_gpio pd) = 0 ->
       env_gpio_request env (clk_gpio pd) = 0 ->
       env_kzalloc_host_ok env = false ->
       issp_probe SEC CHK env
       = (- ENOMEM,
          [devm_gpio_request (reset_gpio pd);
           devm_gpio_request (data_gpio pd);
           devm_gpio_request (clk_gpio pd);
           gpio_direction_output (reset_gpio pd) 0;
           gpio_direction_input (data_gpio pd);
           gpio_direction_output (clk_gpio pd) 0;
           devm_kzalloc_host])) /\
      (env_gpio_request env (reset_gpio pd) = 0 ->
       env_gpio_request env (data_gpio pd) = 0 ->
       env_gpio_request env (clk_gpio pd) = 0 ->
       env_kzalloc_host_ok env = true ->
       env_request_firmware env <> 0 ->
       issp_probe SEC CHK env
       = (env_request_firmware env,
          probe_prologue pd ++ [dev_err "Request firmware %s failed!"])))).
Proof.
  split.
  - intros Hpd. unfold issp_probe. rewrite Hpd. reflexivity.
  - intros pd Hpd. unfold issp_probe, probe_gpio_requests. rewrite Hpd.
    split.
    + intros Hinv.
      destruct (env_gpio_is_valid env (reset_gpio pd)),
        (env_gpio_is_valid env (data_gpio pd)),
        (env_gpio_is_valid env (clk_gpio pd));
        try discriminate Hinv; reflexivity.
    + intros Hv. apply andb_prop in Hv. destruct Hv as [Hv Hv3].
      apply andb_prop in Hv. destruct Hv as [Hv1 Hv2].
      rewrite Hv1, Hv2, Hv3. cbn [negb orb].
      repeat split.
      * intros Hr1. apply Z.eqb_neq in Hr1. rewrite Hr1. cbn [negb].
        rewrite Hr1. reflexivity.
      * intros Hr1 Hr2. rewrite Hr1. apply Z.eqb_neq in Hr2.
        cbn [Z.eqb negb]. rewrite Hr2. cbn [negb]. rewrite Hr2. reflexivity.
      * intros Hr1 Hr2 Hr3. rewrite Hr1, Hr2. apply Z.eqb_neq in Hr3.
        cbn [Z.eqb negb]. rewrite Hr3. reflexivity.
      * intros Hr1 Hr2 Hr3 Hk. rewrite Hr1, Hr2, Hr3, Hk. reflexivity.
      * intros Hr1 Hr2 Hr3 Hk Hf. rewrite Hr1, Hr2, Hr3, Hk.
        apply Z.eqb_neq in Hf. cbn [Z.eqb negb]. rewrite Hf. reflexivity.
Qed.

End ProbeMore.

Lemma issp_probe_releases_once_witness :
  occurrences release_firmware
    (snd (issp_probe SECURITY_ADDR CHECKSUM_ADDR outdated_env)) = 1%nat /\
  occurrences release_firmware
    (snd (issp_probe SECURITY_ADDR CHECKSUM_ADDR clk_busy_env)) = 0%nat.
Proof.
  split.
  - destruct (issp_probe_releases_once SECURITY_ADDR CHECKSUM_ADDR
                outdated_env) as [H _].
    apply (H sample_pdata). repeat split.
  - destruct (issp_probe_releases_once SECURITY_ADDR CHECKSUM_ADDR
                clk_busy_env) as [_ H].
    apply H. intros pd (Hpd & _ & _ & _ & _ & _ & Hclk & _).
    injection Hpd as <-. vm_compute in Hclk. discriminate Hclk.
Defined.

Lemma issp_probe_return_witness :
  (fst (issp_probe SECURITY_ADDR CHECKSUM_ADDR no_wake_lock_env) = 0 \/
   fst (issp_probe SECURITY_ADDR CHECKSUM_ADDR no_wake_lock_env)
   = - ENOMEM) /\
  (fst (issp_probe SECURITY_ADDR CHECKSUM_ADDR no_wake_lock_env) = 0 <->
   probe_fw_valid SECURITY_ADDR CHECKSUM_ADDR no_wake_lock_env sample_pdata /\
   (si_id_mismatch
      (probe_host SECURITY_ADDR CHECKSUM_ADDR no_wake_lock_env sample_pdata)
      sample_pdata = true \/
    fst (fst (probe_decision SECURITY_ADDR CHECKSUM_ADDR no_wake_lock_env
                sample_pdata)) <> 0 \/
    (env_kzalloc_wake_lock_ok no_wake_lock_env = true /\
     env_create_workqueue_ok no_wake_lock_env = true))).
Proof.
  apply (issp_probe_return SECURITY_ADDR CHECKSUM_ADDR no_wake_lock_env
           sample_pdata).
  repeat split.
Defined.

Lemma issp_probe_programs_witness :
  (occurrences issp_program
     (snd (issp_probe SECURITY_ADDR CHECKSUM_ADDR outdated_env)) <= 1)%nat /\
  (occurrences issp_program
     (snd (issp_probe SECURITY_ADDR CHECKSUM_ADDR outdated_env)) = 1%nat <->
   probe_fw_valid SECURITY_ADDR CHECKSUM_ADDR outdated_env sample_pdata /\
   si_id_mismatch
     (probe_host SECURITY_ADDR CHECKSUM_ADDR outdated_env sample_pdata)
     sample_pdata = false /\
   fst (fst (probe_decision SECURITY_ADDR CHECKSUM_ADDR outdated_env
               sample_pdata)) = 0 /\
   snd (fst (probe_decision SECURITY_ADDR CHECKSUM_ADDR outdated_env
               sample_pdata)) = true).
Proof.
  apply (issp_probe_programs SECURITY_ADDR CHECKSUM_ADDR outdated_env
           sample_pdata).
  repeat split.
Defined.

Lemma issp_probe_setup_failure_witness :
  fst (issp_probe SECURITY_ADDR CHECKSUM_ADDR no_wake_lock_env) = - ENOMEM /\
  released_without_run sample_pdata
    (snd (issp_probe SECURITY_ADDR CHECKSUM_ADDR no_wake_lock_env)) /\
  (snd (fst (probe_decision SECURITY_ADDR CHECKSUM_ADDR no_wake_lock_env
               sample_pdata)) = true ->
   In issp_program
      (snd (issp_probe SECURITY_ADDR CHECKSUM_ADDR no_wake_lock_env))).
Proof.
  apply (issp_probe_setup_failure SECURITY_ADDR CHECKSUM_ADDR
           no_wake_lock_env sample_pdata).
  - repeat split.
  - reflexivity.
  - reflexivity.
  - reflexivity.
  - reflexivity.
Defined.

Lemma issp_probe_early_failures_witness :
  issp_probe SECURITY_ADDR CHECKSUM_ADDR clk_busy_env
  = (-16, [devm_gpio_request 10; devm_gpio_request 11;
           devm_gpio_request 12]).
Proof.
  destruct (issp_probe_early_failures SECURITY_ADDR CHECKSUM_ADDR
              clk_busy_env) as [_ H].
  destruct (H sample_pdata) as [_ Hvalid]; [reflexivity|].
  destruct Hvalid as (_ & _ & Hclk & _); [reflexivity|].
  apply Hclk.
  - reflexivity.
  - reflexivity.
  - vm_compute. intros E. discriminate E.
Defined.

(** ** Progress of the reset paths *)

Lemma remaining_set_thread l :
  forall i c rest,
    nth_error l i = Some (c :: rest) ->
    fold_right (fun t n => (length t + n)%nat) 0%nat l
    = S (fold_right (fun t n => (length t + n)%nat) 0%nat
           (set_thread l i rest)).
Proof.
  induction l as [|x l IH]; intros i c rest Hi.
  - destruct i; discriminate Hi.
  - destruct i as [|i]; cbn in Hi |- *.
    + injection Hi as ->. cbn. reflexivity.
    + rewrite (IH i c rest Hi). lia.
Qed.

Lemma step_thread m i c m' :
  step m i = Some (c, m') ->
  exists rest,
    nth_error (threads m) i = Some (c :: rest) /\
    threads m' = set_thread (threads m) i rest.
Proof.
  unfold step. intros Hstep.
  destruct (nth_error (threads m) i) as [[|c0 rest]|] eqn:Hi;
    try discriminate Hstep.
  exists rest.
  destruct (is_call c0 mutex_lock);
    [|destruct (is_call c0 mutex_unlock)];
    try (destruct (owner m) as [j|]; try discriminate Hstep;
         try (destruct (Nat.eqb i j); try discriminate Hstep));
    injection Hstep as <- <-; split; reflexivity.
Qed.

Lemma step_remaining m i c m' :
  step m i = Some (c, m') -> remaining m = S (remaining m').
Proof.
  intros Hstep. destruct (step_thread m i c m' Hstep) as (rest & Hi & Ht).
  unfold remaining. rewrite Ht. apply (remaining_set_thread _ i c rest Hi).
Qed.

Lemma run_remaining sched :
  forall m m', run m sched = Some m' ->
               (remaining m' + length sched = remaining m)%nat.
Proof.
  induction sched as [|i sched IH]; intros m m' Hrun; cbn in Hrun.
  - injection Hrun as <-. cbn. lia.
  - destruct (step m i) as [[c m1]|] eqn:Hstep; [|discriminate Hrun].
    rewrite (step_remaining m i c m1 Hstep).
    specialize (IH m1 m' Hrun). cbn [length]. lia.
Qed.

Lemma owner_exists_step m i c m' :
  owner_exists m -> step m i = Some (c, m') -> owner_exists m'.
Proof.
  intros Hown Hstep.
  destruct (step_thread m i c m' Hstep) as (rest & Hi & Ht).
  assert (Hkeep : forall j, (exists t, nth_error (threads m) j = Some t) ->
                            exists t, nth_error (threads m') j = Some t).
  { intros j [t Hj]. rewrite Ht, nth_error_set_thread, Hj.
    destruct (Nat.eqb i j); eauto. }
  unfold step in Hstep. rewrite Hi in Hstep.
  destruct (is_call c mutex_lock);
    [|destruct (is_call c mutex_unlock)].
  - destruct (owner m); [discriminate Hstep|].
    injection Hstep as <-. intros j [= <-]. apply Hkeep. eauto.
  - destruct (owner m) as [j|]; [|discriminate Hstep].
    destruct (Nat.eqb i j); [|discriminate Hstep].
    injection Hstep as <-. intros k Hk. discriminate Hk.
  - injection Hstep as <-. intros j Hj. apply Hkeep. apply Hown. exact Hj.
Qed.

Lemma owner_exists_run sched :
  forall m m', owner_exists m -> run m sched = Some m' -> owner_exists m'.
Proof.
  induction sched as [|i sched IH]; intros m m' Hown Hrun; cbn in Hrun.
  - injection Hrun as <-. exact Hown.
  - destruct (step m i) as [[c m1]|] eqn:Hstep; [|discriminate Hrun].
    apply (IH m1 m'); [|exact Hrun].
    apply (owner_exists_step m i c m1); assumption.
Qed.

(** A path that is about to release the lock is inside its critical
    section. *)
Lemma thread_state_unlock g rest :
  thread_state g (mutex_unlock :: rest) ->
  in_critical_section (mutex_unlock :: rest) = true.
Proof.
  intros H. each_thread_state H; injection H as <-; reflexivity.
Qed.

Lemma in_critical_section_next t :
  in_critical_section t = true ->
  exists c rest, t = c :: rest /\ is_call c mutex_lock = false.
Proof.
  unfold in_critical_section. destruct t as [|c rest]; [discriminate|].
  cbn [existsb]. intros H. exists c, rest. split; [reflexivity|].
  apply andb_prop in H. destruct H as [_ H].
  apply negb_true_iff in H. apply orb_false_iff in H. tauto.
Qed.

Lemma remaining_pending (l : list (list call)) :
  fold_right (fun t n => (length t + n)%nat) 0%nat l <> 0%nat ->
  exists i c rest, nth_error l i = Some (c :: rest).
Proof.
  induction l as [|x l IH]; cbn; [congruence|].
  destruct x as [|c rest].
  - cbn. intros H. destruct (IH H) as (i & c & rest & Hi).
    exists (S i), c, rest. exact Hi.
  - intros _. exists 0%nat, c, rest. reflexivity.
Qed.

Lemma remaining_zero (l : list (list call)) i t :
  fold_right (fun t n => (length t + n)%nat) 0%nat l = 0%nat ->
  nth_error l i = Some t -> t = [].
Proof.
  revert i. induction l as [|x l IH]; intros i H Hi.
  - destruct i; discriminate Hi.
  - cbn in H. destruct i as [|i]; cbn in Hi.
    + injection Hi as <-. destruct x; [reflexivity|discriminate H].
    + apply (IH i); [lia|exact Hi].
Qed.

(** The reset paths cannot block each other for good.  However the manual
    pin reset, the manual full reset and the recovery are interleaved:
    every step takes one call off what is left, so an execution has at most
    as many steps as the paths have calls; as long as a call is left, some
    context can make its next call; a context that is about to release the
    lock is the one holding it; and when nothing is left the lock is
    free. *)
Theorem reset_paths_progress
        (g : issp_globals) (m m' : machine) (sched : list nat) :
  initial g m -> run m sched = Some m' ->
  (remaining m' + length sched = remaining m)%nat /\
  (remaining m' <> 0%nat -> exists i c m'', step m' i = Some (c, m'')) /\
  (forall i rest, nth_error (threads m') i = Some (mutex_unlock :: rest) ->
                  owner m' = Some i) /\
  (remaining m' = 0%nat -> owner m' = None).
Proof.
  intros Hinit Hrun.
  destruct (lock_invariant_run g sched m m'
              (lock_invariant_initial g m Hinit) Hrun) as [Hts Hown].
  assert (Hex : owner_exists m').
  { apply (owner_exists_run sched m m'); [|exact Hrun].
    intros i Hi. destruct Hinit as [Hnone _]. congruence. }
  rewrite Forall_forall in Hts.
  assert (Hunlock : forall i rest,
             nth_error (threads m') i = Some (mutex_unlock :: rest) ->
             owner m' = Some i).
  { intros i rest Hi. apply (Hown i _ Hi).
    apply (thread_state_unlock g). apply Hts.
    eapply nth_error_In. exact Hi. }
  split; [apply run_remaining; exact Hrun|].
  split; [|split; [exact Hunlock|]].
  - intros Hleft.
    destruct (owner m') as [j|] eqn:Hj.
    + destruct (Hex j Hj) as [t Ht].
      assert (Hcs : in_critical_section t = true)
        by (apply (Hown j t Ht); reflexivity).
      destruct (in_critical_section_next t Hcs) as (c & rest & -> & Hl).
      exists j. unfold step. rewrite Ht, Hl, Hj, Nat.eqb_refl.
      destruct (is_call c mutex_unlock); eauto.
    + destruct (remaining_pending _ Hleft) as (i & c & rest & Hi).
      exists i. unfold step. rewrite Hi, Hj.
      destruct (is_call c mutex_lock) eqn:Hl; [eauto|].
      destruct (is_call c mutex_unlock) eqn:Hu; [|eauto].
      apply is_call_true in Hu. subst c.
      discriminate (Hunlock i rest Hi).
  - intros Hzero.
    destruct (owner m') as [j|] eqn:Hj; [|reflexivity].
    destruct (Hex j Hj) as [t Ht].
    assert (Hcs : in_critical_section t = true)
      by (apply (Hown j t Ht); reflexivity).
    rewrite (remaining_zero _ j t Hzero Ht) in Hcs. discriminate Hcs.
Qed.

Lemma reset_paths_progress_witness :
  exists m',
    run three_contexts sample_schedule = Some m' /\
    (remaining m' + length sample_schedule = remaining three_contexts)%nat /\
    (remaining m' <> 0%nat -> exists i c m'', step m' i = Some (c, m'')) /\
    (forall i rest, nth_error (threads m') i = Some (mutex_unlock :: rest) ->
                    owner m' = Some i) /\
    (remaining m' = 0%nat -> owner m' = None).
Proof.
  destruct (run three_contexts sample_schedule) as [m'|] eqn:Hrun;
    [|vm_compute in Hrun; discriminate Hrun].
  exists m'. split; [reflexivity|].
  apply (reset_paths_progress attached three_contexts m' sample_schedule);
    [|exact Hrun].
  split; [reflexivity|].
  repeat (apply Forall_cons; [cbn; auto|]). apply Forall_nil.
Defined.

(** ** The guard around the resets *)

(** The recovery and its guard, call by call.  [issp_start_recovery_work]
    takes the guard exactly when it queues the delayed work, which is when
    the work queue exists, and never releases it.  The delayed work never
    takes the guard itself; when the lock object exists it releases the
    guard exactly once, and that release is its last call, after all its
    unload, reset and reload calls. *)
Theorem issp_recovery_guard (g : issp_globals) :
  (In wake_lock (issp_start_recovery_work g) <-> issp_workqueue g = true) /\
  (In (queue_delayed_work ISSP_RECOVERY_DELAY) (issp_start_recovery_work g)
   <-> issp_workqueue g = true) /\
  ~ In wake_unlock (issp_start_recovery_work g) /\
  ~ In wake_lock (issp_recovery_work_func g) /\
  (g_issp_wake_lock g <> None ->
   occurrences wake_unlock (issp_recovery_work_func g) = 1%nat /\
   last (issp_recovery_work_func g) (dev_info "") = wake_unlock).
Proof.
  destruct g as [wl wq].
  unfold issp_start_recovery_work, issp_recovery_work_func.
  cbn [issp_workqueue g_issp_wake_lock].
  split; [|split; [|split; [|split]]].
  - destruct wq; cbn; split; intros H; try reflexivity; try tauto;
      try discriminate H.
    repeat destruct H as [H|H]; try discriminate H; contradiction.
  - destruct wq; cbn; split; intros H; try reflexivity; try tauto;
      try discriminate H.
    repeat destruct H as [H|H]; try discriminate H; contradiction.
  - destruct wq; cbn; absent.
  - destruct wl; cbn; absent.
  - intros Hwl. destruct wl as [held|]; [|contradiction].
    split; reflexivity.
Qed.

Lemma issp_recovery_guard_witness :
  occurrences wake_unlock (issp_recovery_work_func attached) = 1%nat /\
  last (issp_recovery_work_func attached) (dev_info "") = wake_unlock.
Proof.
  destruct (issp_recovery_guard attached) as (_ & _ & _ & _ & H).
  apply H. discriminate.
Defined.

Lemma guard_effect_other c wl :
  c <> wake_lock -> c <> wake_unlock -> guard_effect c wl = wl.
Proof.
  intros Hl Hu. destruct c; try reflexivity; contradiction.
Qed.

Lemma guard_effect_allocated c wl :
  wl <> None -> guard_effect c wl <> None.
Proof.
  intros Hwl. destruct wl as [held|]; [|contradiction].
  destruct c; discriminate.
Qed.

(** A path that has just taken the guard has its release ahead. *)
Lemma thread_state_wake_lock g rest :
  thread_state g (wake_lock :: rest) -> In wake_unlock rest.
Proof.
  intros H. each_thread_state H; injection H as <-; cbn; tauto.
Qed.

Lemma reset_path_releases g t :
  g_issp_wake_lock g <> None -> In t (reset_paths g) -> In wake_unlock t.
Proof.
  intros Hwl Hin. unfold reset_paths, issp_recovery_work_func in Hin.
  destruct (g_issp_wake_lock g); [|contradiction].
  cbn in Hin. repeat (destruct Hin as [<-|Hin]; [cbn; tauto|]).
  contradiction.
Qed.

(** While the guard is held, some context has a release ahead. *)
Lemma guard_release_run g sched :
  forall m wl tr m',
    Forall (thread_state g) (threads m) ->
    wl <> None ->
    (wl = Some true ->
     exists i t, nth_error (threads m) i = Some t /\ In wake_unlock t) ->
    run_calls m sched = Some (tr, m') ->
    fold_left (fun wl c => guard_effect c wl) tr wl = Some true ->
    exists i t, nth_error (threads m') i = Some t /\ In wake_unlock t.
Proof.
  induction sched as [|i sched IH]; intros m wl tr m' Hts Hwl Hpend Hrun;
    cbn in Hrun.
  - injection Hrun as <- <-. cbn. exact Hpend.
  - destruct (step m i) as [[c m1]|] eqn:Hstep; [|discriminate Hrun].
    destruct (run_calls m1 sched) as [[tr1 m2]|] eqn:Hrun1;
      [|discriminate Hrun].
    injection Hrun as <- <-. cbn [fold_left].
    destruct (step_thread m i c m1 Hstep) as (rest & Hi & Ht).
    assert (Hst : thread_state g (c :: rest)).
    { rewrite Forall_forall in Hts. apply Hts.
      eapply nth_error_In. exact Hi. }
    apply (IH m1 (guard_effect c wl) tr1 m2); [| |
      |exact Hrun1].
    + rewrite Ht. apply Forall_set_thread; [exact Hts|].
      apply (thread_state_tail g c rest Hst).
    + apply guard_effect_allocated. exact Hwl.
    + intros Hheld. rewrite Ht.
      destruct (call_eq_dec c wake_unlock) as [->|Hu].
      { destruct wl; [discriminate Hheld|contradiction]. }
      destruct (call_eq_dec c wake_lock) as [->|Hl].
      { exists i, rest. rewrite nth_error_set_thread, Nat.eqb_refl, Hi.
        split; [reflexivity|]. apply (thread_state_wake_lock g rest Hst). }
      rewrite (guard_effect_other c wl Hl Hu) in Hheld.
      destruct (Hpend Hheld) as (j & t & Hj & Hin).
      destruct (Nat.eqb_spec i j) as [<-|Hne].
      * exists i, rest. rewrite nth_error_set_thread, Nat.eqb_refl, Hi.
        split; [reflexivity|].
        rewrite Hi in Hj. injection Hj as <-.
        destruct Hin as [E|Hin]; [congruence|exact Hin].
      * exists j, t. rewrite nth_error_set_thread.
        destruct (Nat.eqb_spec i j) as [E|_]; [contradiction|].
        split; assumption.
Qed.

(** The guard does not stay held.  With the lock object allocated and at
    least one context, however the manual pin reset, the manual full reset
    and the recovery are interleaved and whatever the state of the guard at
    the start: whenever the guard is held after some steps, some context
    still has a [wake_unlock] ahead; hence once all contexts have finished
    the guard is not held. *)
Theorem reset_paths_guard_released
        (g : issp_globals) (m m' : machine) (sched : list nat)
        (tr : list call) :
  initial g m -> g_issp_wake_lock g <> None -> threads m <> [] ->
  run_calls m sched = Some (tr, m') ->
  (guard_held (globals_after tr g) ->
   exists i t, nth_error (threads m') i = Some t /\ In wake_unlock t) /\
  (remaining m' = 0%nat -> ~ guard_held (globals_after tr g)).
Proof.
  intros [_ Hall] Hwl Hne Hrun.
  assert (Hpend : guard_held (globals_after tr g) ->
                  exists i t, nth_error (threads m') i = Some t /\
                              In wake_unlock t).
  { unfold guard_held, globals_after. cbn [g_issp_wake_lock].
    apply (guard_release_run g sched m (g_issp_wake_lock g) tr m');
      [| exact Hwl | | exact Hrun].
    - eapply Forall_impl; [|exact Hall].
      intros t Ht. apply (thread_state_start g t Ht).
    - intros _. destruct (threads m) as [|t l]; [contradiction|].
      exists 0%nat, t. split; [reflexivity|].
      apply (reset_path_releases g t Hwl).
      inversion Hall; assumption. }
  split; [exact Hpend|].
  intros Hzero Hheld.
  destruct (Hpend Hheld) as (i & t & Hi & Hin).
  rewrite (remaining_zero _ i t Hzero Hi) in Hin. contradiction.
Qed.

Lemma reset_paths_guard_released_witness :
  exists tr m',
    run_calls three_contexts sample_schedule = Some (tr, m') /\
    (guard_held (globals_after tr attached) ->
     exists i t, nth_error (threads m') i = Some t /\ In wake_unlock t) /\
    (remaining m' = 0%nat -> ~ guard_held (globals_after tr attached)).
Proof.
  destruct (run_calls three_contexts sample_schedule) as [[tr m']|] eqn:Hrun;
    [|vm_compute in Hrun; discriminate Hrun].
  exists tr, m'. split; [reflexivity|].
  apply (reset_paths_guard_released attached three_contexts m'
           sample_schedule tr).
  - split; [reflexivity|].
    repeat (apply Forall_cons; [cbn; auto|]). apply Forall_nil.
  - discriminate.
  - discriminate.
  - exact Hrun.
Defined.

(** ** The data-line attribute *)

(** A write to the [issp_data] attribute drives the data line only when
    the parser accepts the text and the number is 0 or 1, and then to that
    level on the configured data gpio; every other write leaves the line
    alone.  In all cases the handler returns [count]: the write is
    reported as consumed, also when it was ignored. *)
Theorem issp_data_set_effect
        (kstrtoul : string -> Z -> Z * Z) (pd : issp_platform_data)
        (buf : string) (count : Z) :
  fst (issp_data_set kstrtoul pd buf count) = count /\
  (forall gpio v,
     In (gpio_set_value gpio v) (snd (issp_data_set kstrtoul pd buf count))
     <->
     gpio = data_gpio pd /\ kstrtoul buf 10 = (0, v) /\ (v = 0 \/ v = 1)).
Proof.
  unfold issp_data_set.
  destruct (kstrtoul buf 10) as [ret val].
  destruct (Z.eqb_spec ret 0) as [Hret|Hret].
  - destruct (Z.eqb_spec val 1) as [H1|H1];
      [|destruct (Z.eqb_spec val 0) as [H0|H0]]; cbn [orb fst snd In].
    + split; [reflexivity|]. intros gpio v. split.
      * intros [[= <- <-]|[H|[]]]; [|discriminate H].
        subst. repeat split. right. reflexivity.
      * intros (-> & [= _ <-] & _). left. reflexivity.
    + split; [reflexivity|]. intros gpio v. split.
      * intros [[= <- <-]|[H|[]]]; [|discriminate H].
        subst. repeat split. left. reflexivity.
      * intros (-> & [= _ <-] & _). left. reflexivity.
    + split; [reflexivity|]. intros gpio v. split; [intros []|].
      intros (_ & [= _ <-] & [E|E]); contradiction.
  - cbn [fst snd In]. split; [reflexivity|]. intros gpio v.
    split; [intros []|]. intros (_ & [= E _] & _). contradiction.
Qed.
